(** * Legendre-Polynomial-Normalized: a shallow embedding of
      [legendre_polynomials_normalized.py]

    The program has three functions over numpy arrays of floats:
    - [integration_simpson_sampled]: Simpson weighting of sampled values,
      done in place on the array it is given;
    - [get_projection]: projection of a function on the rows of a matrix;
    - [legendre_polynomial_normalized]: Gram-Schmidt on sampled monomials.

    Arrays are mutable and shared by reference in the source, so they live
    in a store and the three functions are written in a state-and-exception
    monad over that store.  The scalar arithmetic of floats is an interface
    ([Float64]); an IEEE binary64 instance built on [SpecFloat] is used to
    run the program on concrete inputs. *)

From Stdlib Require Import ZArith QArith Qabs Lia List.
From Corelib Require Import SpecFloat.
From stdpp Require Import base list.

Set Default Proof Using "Type".
Local Open Scope nat_scope.

(** ** Scalars *)

(** The scalar operations that the program performs on floats, directly or
    through numpy.  [fpow] is [np.power] with an integer exponent and
    [np_sum] is the reduction [np.sum] of a one-dimensional array; numpy
    fixes neither the rounding of the first nor the association order of
    the second, so both are part of the interface. *)
Class Float64 (F : Type) := {
  of_int : Z -> F;
  fadd : F -> F -> F;
  fsub : F -> F -> F;
  fmul : F -> F -> F;
  fdiv : F -> F -> F;
  fsqrt : F -> F;
  fpow : F -> nat -> F;
  feqb : F -> F -> bool;
  np_sum : list F -> F
}.

(** ** Python slices *)

(** [start] or [stop] of a slice with a positive step, brought into
    [0 .. len] as [slice.indices] does: a negative bound counts from the
    end, and everything is clipped. *)
Definition slice_bound (i : Z) (len : nat) : nat :=
  if (i <? 0)%Z then Z.to_nat (Z.max (i + Z.of_nat len) 0)
  else Nat.min (Z.to_nat i) len.

(** [range(lo, hi, step)] for [step > 0]. *)
Definition py_range (lo hi step : nat) : list nat :=
  (fun k => lo + k * step) <$> seq 0 ((hi - lo + (step - 1)) / step).

(** The indices selected by [x[start:stop:step]] on an array of [len]
    elements. *)
Definition slice_indices (start stop : Z) (step len : nat) : list nat :=
  py_range (slice_bound start len) (slice_bound stop len) step.

(** ** Exceptions and the store *)

(** The exceptions of Python and numpy that the program can meet.
    [DanglingRef] is the use of a location that is not in the store; no
    Python reference is dangling, so it arises only from a store that does
    not hold the arguments of a call. *)
Inductive exn : Set :=
| ZeroDivisionError
| IndexError
| ValueError
| DanglingRef.

Inductive result (A : Type) : Type :=
| Ok (a : A)
| Raise (e : exn).
Arguments Ok {A} a.
Arguments Raise {A} e.

Definition loc := nat.

(** A two-dimensional array is the vector of its row buffers together
    with its row length; [BASE[k, :]] is the [k]-th buffer itself, so that
    a write through the view and a write through the matrix hit the same
    cell. *)
Record ndarray2 := { rows : list loc; shape1 : nat }.

Section Program.
Context {F : Type} `{Float64 F}.

Definition f0 : F := of_int 0.
Definition f1 : F := of_int 1.

(** The store: one cell per one-dimensional buffer. *)
Abbreviation heap := (list (list F)).

Definition M (A : Type) : Type := heap -> result A * heap.

Definition ret {A} (a : A) : M A := fun h => (Ok a, h).

Definition raise {A} (e : exn) : M A := fun h => (Raise e, h).

Definition bind {A B} (m : M A) (k : A -> M B) : M B :=
  fun h => match m h with
           | (Ok a, h') => k a h'
           | (Raise e, h') => (Raise e, h')
           end.

Notation "'let*' x ':=' m 'in' k" := (bind m (fun x => k))
  (at level 10, x binder, m at level 100, k at level 200).

Definition alloc (xs : list F) : M loc :=
  fun h => (Ok (length h), h ++ [xs]).

Definition load (l : loc) : M (list F) :=
  fun h => match h !! l with
           | Some xs => (Ok xs, h)
           | None => (Raise DanglingRef, h)
           end.

Definition store (l : loc) (xs : list F) : M unit :=
  fun h => if decide (l < length h) then (Ok tt, <[l := xs]> h)
           else (Raise DanglingRef, h).

Definition lift {A} (o : option A) (e : exn) : M A :=
  match o with Some a => ret a | None => raise e end.

(** [for i in idx: body(i)] *)
Fixpoint for_each (idx : list nat) (body : nat -> M unit) : M unit :=
  match idx with
  | [] => ret tt
  | i :: rest => let* _ := body i in for_each rest body
  end.

(** ** numpy on lists *)

(** [np.linspace(a, b, N)], following numpy: [arange(0, N) * step + a]
    with [step = (b - a) / (N - 1)], the last element then overwritten by
    [b]; when [step] is zero the division comes first; for [N = 1] there
    is no step and the result is [[a]]. *)
Definition arange (N : nat) : list F := (fun i => of_int (Z.of_nat i)) <$> seq 0 N.

Definition linspace (a b : F) (N : nat) : list F :=
  let div := N - 1 in
  let delta := fsub b a in
  let y :=
    if decide (0 < div) then
      let step := fdiv delta (of_int (Z.of_nat div)) in
      if feqb step f0
      then (fun v => fmul (fdiv v (of_int (Z.of_nat div))) delta) <$> arange N
      else (fun v => fmul v step) <$> arange N
    else (fun v => fmul v delta) <$> arange N in
  let y := (fun v => fadd v a) <$> y in
  if decide (1 < N) then <[N - 1 := b]> y else y.

(** Binary operation on two one-dimensional arrays with numpy's
    broadcasting: equal lengths, or one operand of length one. *)
Definition broadcast2 (op : F -> F -> F) (xs ys : list F) : option (list F) :=
  if decide (length xs = length ys) then Some (zip_with op xs ys)
  else match xs, ys with
       | [x], _ => Some (op x <$> ys)
       | _, [y] => Some ((fun x => op x y) <$> xs)
       | _, _ => None
       end.

(** The right-hand side of an assignment or of an in-place operation,
    broadcast to the [n] elements of the target. *)
Definition broadcast_to (n : nat) (ys : list F) : option (list F) :=
  if decide (length ys = n) then Some ys
  else match ys with
       | [y] => Some (replicate n y)
       | _ => None
       end.

(** [x[start:stop:step] *= c] on the contents of [x]. *)
Definition imul_slice (start stop : Z) (step : nat) (c : F) (xs : list F) : list F :=
  foldr (fun i acc => alter (fun v => fmul v c) i acc) xs
        (slice_indices start stop step (length xs)).

(** ** numpy on the store *)

Definition np_linspace (a b : F) (N : nat) : M loc := alloc (linspace a b N).

Fixpoint alloc_rows (count : nat) (row : list F) : M (list loc) :=
  match count with
  | 0 => ret []
  | S c => let* l := alloc row in
           let* ls := alloc_rows c row in
           ret (l :: ls)
  end.

(** [np.zeros((count, N))] *)
Definition np_zeros2 (count N : nat) : M ndarray2 :=
  let* ls := alloc_rows count (replicate N f0) in
  ret {| rows := ls; shape1 := N |}.

(** [np.power(x, n)] *)
Definition np_power (x : loc) (n : nat) : M loc :=
  let* xs := load x in alloc ((fun v => fpow v n) <$> xs).

Definition np_ones_like (x : loc) : M loc :=
  let* xs := load x in alloc (replicate (length xs) f1).

Definition np_zeros_like (x : loc) : M loc :=
  let* xs := load x in alloc (replicate (length xs) f0).

(** [x * y] *)
Definition np_mul (x y : loc) : M loc :=
  let* xs := load x in
  let* ys := load y in
  let* zs := lift (broadcast2 fmul xs ys) ValueError in
  alloc zs.

(** [c * y] for a scalar [c] *)
Definition np_smul (c : F) (y : loc) : M loc :=
  let* ys := load y in alloc (fmul c <$> ys).

(** [x / c] for a scalar [c] *)
Definition np_div_s (x : loc) (c : F) : M loc :=
  let* xs := load x in alloc ((fun v => fdiv v c) <$> xs).

(** [x += y] and [x -= y] *)
Definition np_iop (op : F -> F -> F) (x y : loc) : M unit :=
  let* xs := load x in
  let* ys := load y in
  let* ys' := lift (broadcast_to (length xs) ys) ValueError in
  store x (zip_with op xs ys').

Definition np_iadd := np_iop fadd.
Definition np_isub := np_iop fsub.

(** [x[start:stop:step] *= c] *)
Definition np_imul_slice (x : loc) (start stop : Z) (step : nat) (c : F) : M unit :=
  let* xs := load x in store x (imul_slice start stop step c xs).

(** [np.sum(x)] *)
Definition np_sum_arr (x : loc) : M F :=
  let* xs := load x in ret (np_sum xs).

(** [B[k, :]] as a view *)
Definition np_row (B : ndarray2) (k : nat) : M loc :=
  lift (rows B !! k) IndexError.

(** [B[n, :] = v] *)
Definition np_setrow (B : ndarray2) (n : nat) (v : loc) : M unit :=
  let* l := np_row B n in
  let* vs := load v in
  let* vs' := lift (broadcast_to (shape1 B) vs) ValueError in
  store l vs'.

(** [f(xx)] for a function applied element by element; the result is a new
    array. *)
Definition np_apply (f : F -> F) (x : loc) : M loc :=
  let* xs := load x in alloc (f <$> xs).

(** [(b - a) / N] on a Python float and a Python int: division by the int
    zero raises, where numpy's division would give an infinity or NaN. *)
Definition py_div_int (x : F) (N : nat) : M F :=
  if decide (N = 0) then raise ZeroDivisionError
  else ret (fdiv x (of_int (Z.of_nat N))).

(** ** The program *)

(** Sample counts and function counts are natural numbers, [a] and [b]
    are Python floats, and arrays are one-dimensional arrays of floats,
    passed by reference. *)
Definition integration_simpson_sampled (a b : F) (fx : loc) (N : nat) : M F :=
  let* h := py_div_int (fsub b a) N in
  let* _ := np_imul_slice fx 1 (-1) 2 (of_int 4) in
  let* _ := np_imul_slice fx 2 (-1) 2 (of_int 2) in
  let* s := np_sum_arr fx in
  ret (fmul (fdiv h (of_int 3)) s).

Definition projection_step (BASE : ndarray2) (a b : F) (N : nat)
    (fx projection : loc) (k : nat) : M unit :=
  let* ek := np_row BASE k in
  let* t := np_mul fx ek in
  let* c := integration_simpson_sampled a b t N in
  let* u := np_smul c ek in
  np_iadd projection u.

Definition get_projection (BASE : ndarray2) (f : F -> F) (a b : F) : M loc :=
  let N := shape1 BASE in
  let* xx := np_linspace a b N in
  let* fx := np_apply f xx in
  let* projection := np_zeros_like xx in
  let* _ := for_each (seq 0 (length (rows BASE)))
                     (projection_step BASE a b N fx projection) in
  ret projection.

(** The first loop of [legendre_polynomial_normalized]. *)
Definition seed_row (BASE : ndarray2) (xx : loc) (n : nat) : M unit :=
  let* t := np_power xx n in np_setrow BASE n t.

(** The body of its second loop. *)
Definition gram_schmidt_row (BASE : ndarray2) (xx : loc) (a b : F) (N n : nat) : M unit :=
  let* wn := np_power xx n in
  let* p_sum := np_zeros_like wn in
  let* _ := for_each (seq 0 n) (projection_step BASE a b N wn p_sum) in
  let* _ := np_isub wn p_sum in
  let* sq := np_power wn 2 in
  let* norm := integration_simpson_sampled a b sq N in
  let* r := np_div_s wn (fsqrt norm) in
  np_setrow BASE n r.

(** Lines 83 to 100. *)
Definition normalize_rows (BASE : ndarray2) (xx : loc) (number_functions N : nat)
    (a b : F) : M ndarray2 :=
  let* ones := np_ones_like xx in
  let* norm_first_poly := integration_simpson_sampled a b ones N in
  let* ones' := np_ones_like xx in
  let* e1 := np_div_s ones' (fsqrt norm_first_poly) in
  let* _ := np_setrow BASE 0 e1 in
  let* _ := for_each (seq 1 (number_functions - 1))
                     (gram_schmidt_row BASE xx a b N) in
  ret BASE.

Definition legendre_polynomial_normalized (number_functions N : nat) (a b : F)
    : M ndarray2 :=
  let* xx := np_linspace a b N in
  let* BASE := np_zeros2 number_functions N in
  let* _ := for_each (seq 0 number_functions) (seed_row BASE xx) in
  normalize_rows BASE xx number_functions N a b.

(** The variant that seeds row 0 only. *)
Definition legendre_polynomial_unseeded (number_functions N : nat) (a b : F)
    : M ndarray2 :=
  let* xx := np_linspace a b N in
  let* BASE := np_zeros2 number_functions N in
  let* _ := for_each (seq 0 (Nat.min 1 number_functions)) (seed_row BASE xx) in
  normalize_rows BASE xx number_functions N a b.

(** Both [legendre_polynomial_normalized] and its variant have this
    shape, with [idx] the rows that the first loop seeds. *)
Definition seeded_then_normalized (idx : list nat) (count N : nat) (a b : F)
    : M ndarray2 :=
  let* xx := np_linspace a b N in
  let* BASE := np_zeros2 count N in
  let* _ := for_each idx (seed_row BASE xx) in
  normalize_rows BASE xx count N a b.

(** [main], lines 117 to 140, up to the drawing: the result is the five
    arrays that are handed to [plt.plot], in the order [xx], [g(xx)],
    [f(xx)], [projection_f], [projection_g].  The floats [-np.pi] and
    [np.pi], the function [np.sin] and the function [g] of line 131 are
    parameters. *)
Definition main (minus_pi pi : F) (sin g : F -> F)
    : M (loc * loc * loc * loc * loc) :=
  let number_functions := 11 in
  let a := minus_pi in
  let b := pi in
  let N := 100 in
  let* xx := np_linspace a b N in
  let* BASE := legendre_polynomial_normalized number_functions N a b in
  let f := sin in
  let* projection_f := get_projection BASE f a b in
  let* projection_g := get_projection BASE g a b in
  let* gxx := np_apply g xx in
  let* fxx := np_apply f xx in
  ret (xx, gxx, fxx, projection_f, projection_g).

(** ** What the functions compute *)

(** The contents of [fx] after lines 31 and 32. *)
Definition simpson_weighted (xs : list F) : list F :=
  imul_slice 2 (-1) 2 (of_int 2) (imul_slice 1 (-1) 2 (of_int 4) xs).

(** The factor that lines 31 and 32 apply at index [i] of an array of
    [len] elements: none at the two ends, 4 at an odd index in between and
    2 at an even one. *)
Definition simpson_factor (len i : nat) : option Z :=
  if decide (0 < i < len - 1) then Some (if Nat.odd i then 4 else 2)%Z else None.

Definition scaled (w : option Z) (v : F) : F :=
  match w with
  | Some k => fmul v (of_int k)
  | None => v
  end.

(** The value returned by [integration_simpson_sampled] on an array that
    holds [xs]. *)
Definition simpson_value (a b : F) (xs : list F) (N : nat) : F :=
  fmul (fdiv (fdiv (fsub b a) (of_int (Z.of_nat N))) (of_int 3))
       (np_sum (simpson_weighted xs)).

(** One turn of the accumulation loops (lines 57 and 94):
    [acc + integrate(a, b, v * ek, N) * ek]. *)
Definition add_component (a b : F) (N : nat) (v acc ek : list F) : list F :=
  zip_with fadd acc (fmul (simpson_value a b (zip_with fmul v ek) N) <$> ek).

(** The accumulator after all rows [es], starting from zeros. *)
Definition project_onto (a b : F) (N : nat) (es : list (list F)) (v : list F) : list F :=
  fold_left (add_component a b N v) es (replicate (length v) f0).

(** [np.power(xx, n)] *)
Definition monomial (xx : list F) (n : nat) : list F := (fun v => fpow v n) <$> xx.

(** [wn] after line 96. *)
Definition orthogonalized (a b : F) (N : nat) (xx : list F) (es : list (list F))
    (n : nat) : list F :=
  zip_with fsub (monomial xx n) (project_onto a b N es (monomial xx n)).

(** [w / np.sqrt(integrate(a, b, np.power(w, 2), N))], lines 97 and 98. *)
Definition normalized (a b : F) (N : nat) (w : list F) : list F :=
  (fun v => fdiv v (fsqrt (simpson_value a b (monomial w 2) N))) <$> w.

Definition gram_row (a b : F) (N : nat) (xx : list F) (es : list (list F)) (n : nat)
    : list F :=
  normalized a b N (orthogonalized a b N xx es n).

(** [e1], lines 83 and 84. *)
Definition first_row (a b : F) (N : nat) (xx : list F) : list F :=
  (fun v => fdiv v (fsqrt (simpson_value a b (replicate (length xx) f1) N)))
    <$> replicate (length xx) f1.

Definition gram_extend (a b : F) (N : nat) (xx : list F) (es : list (list F)) (n : nat)
    : list (list F) :=
  es ++ [gram_row a b N xx es n].

(** The rows of [BASE] at line 100, for [number_functions >= 1]. *)
Definition gram_schmidt (a b : F) (N count : nat) : list (list F) :=
  let xx := linspace a b N in
  fold_left (gram_extend a b N xx) (seq 1 (count - 1)) [first_row a b N xx].

(** The contents of a matrix in a store. *)
Definition read_matrix (B : ndarray2) (h : heap) : option (list (list F)) :=
  mapM (fun l => h !! l) (rows B).

(** What a caller of a function that returns a matrix observes: the
    contents of the matrix, or the exception. *)
Definition returned_matrix (r : result ndarray2 * heap) : result (list (list F)) :=
  match r with
  | (Ok B, h) => match read_matrix B h with
                 | Some m => Ok m
                 | None => Raise DanglingRef
                 end
  | (Raise e, _) => Raise e
  end.

(** What a caller of a function that returns an array observes. *)
Definition returned_array (r : result loc * heap) : result (list F) :=
  match r with
  | (Ok l, h) => match h !! l with
                 | Some xs => Ok xs
                 | None => Raise DanglingRef
                 end
  | (Raise e, _) => Raise e
  end.

(** ** The specification's words *)

(** Composite Simpson's rule on [N] samples as the specification has it:
    weight 1 at the two ends, 4 at the odd indices in between and 2 at the
    even ones, and [h = (b - a) / (N - 1)]. *)
Definition spec_weight (N i : nat) : Z :=
  if decide (i = 0 \/ i = N - 1) then 1 else if Nat.odd i then 4 else 2.

Definition spec_integrate (a b : F) (xs : list F) (N : nat) : F :=
  let h := fdiv (fsub b a) (of_int (Z.of_nat N - 1)) in
  fmul (fdiv h (of_int 3))
       (np_sum (imap (fun i v => fmul (of_int (spec_weight N i)) v) xs)).

(** Row 0 of the basis as the specification has it: the constant
    [1 / sqrt(b - a)]. *)
Definition spec_first_row (a b : F) (N : nat) : list F :=
  replicate N (fdiv f1 (fsqrt (fsub b a))).

(** ** Weakest preconditions *)

(** [wp m h Q E]: run from [h], [m] ends normally in a store and with a
    value that satisfy [Q], or raises an exception in a store that
    satisfy [E]. *)
Definition wp {A} (m : M A) (h : heap) (Q : A -> heap -> Prop)
    (E : exn -> heap -> Prop) : Prop :=
  match m h with
  | (Ok a, h') => Q a h'
  | (Raise e, h') => E e h'
  end.

(** The arrays of [h0] are kept, and the location is not one of them. *)
Definition fresh_in (h0 : heap) (l : loc) (h : heap) : Prop :=
  h0 `prefix_of` h /\ length h0 <= l.

Definition kept (h0 : heap) {A} (_ : A) (h : heap) : Prop := h0 `prefix_of` h.

End Program.

(** ** IEEE binary64 *)

(** Floats as the program has them: IEEE 754 binary64 with rounding to
    nearest, ties to even, from [SpecFloat].  [fpow] multiplies repeatedly
    and [np_sum] adds from left to right starting at zero; both agree with
    numpy wherever every intermediate result is exact, which is how they
    are used below. *)
Module B64.

Definition prec : Z := 53.
Definition emax : Z := 1024.

Definition float := spec_float.

Definition of_Z (z : Z) : float := binary_normalize prec emax z 0 false.
Definition add : float -> float -> float := SFadd prec emax.
Definition sub : float -> float -> float := SFsub prec emax.
Definition mul : float -> float -> float := SFmul prec emax.
Definition div : float -> float -> float := SFdiv prec emax.
Definition sqrt : float -> float := SFsqrt prec emax.
Definition pow (x : float) (n : nat) : float :=
  Nat.iter n (fun acc => mul acc x) (of_Z 1).
Definition eqb : float -> float -> bool := SFeqb.
Definition sum (xs : list float) : float := fold_left add xs (of_Z 0).

(** The rational number a finite float stands for. *)
Definition to_Q (x : float) : option Q :=
  match x with
  | S754_zero _ => Some 0%Q
  | S754_finite s m e =>
      Some (inject_Z (if s then Z.neg m else Z.pos m) * (2 ^ e))%Q
  | S754_infinity _ | S754_nan => None
  end.

(** [|x - q| <= eps], false when [x] is not finite. *)
Definition within (x : float) (q eps : Q) : bool :=
  match to_Q x with
  | Some v => Qle_bool (Qabs (v - q)) eps
  | None => false
  end.

#[global] Instance float64 : Float64 float := {|
  of_int := of_Z;
  fadd := add;
  fsub := sub;
  fmul := mul;
  fdiv := div;
  fsqrt := sqrt;
  fpow := pow;
  feqb := eqb;
  np_sum := sum
|}.

End B64.

(** ** Inputs of the examples *)

Definition zero : B64.float := B64.of_Z 0.
Definition one : B64.float := B64.of_Z 1.
Definition three : B64.float := B64.of_Z 3.

(** [x^2] on [linspace(0, 1, 5)] *)
Definition squares_on_unit_grid : list B64.float :=
  (fun x => B64.mul x x) <$> linspace zero one 5.

(** A store with the single array [1, 1, 1], and the matrix of one row
    that it makes. *)
Definition ones_store : list (list B64.float) := [[one; one; one]].
Definition ones_basis : ndarray2 := {| rows := [0]; shape1 := 3 |}.

(** * Properties *)

(** Division by two, for [lia]. *)
Ltac euclid2 n :=
  pose proof (Nat.div_mod_eq n 2);
  pose proof (Nat.mod_upper_bound n 2 ltac:(lia)).

(** ** Slices *)

Lemma elem_of_py_range lo hi step i :
  0 < step ->
  i ∈ py_range lo hi step <-> lo <= i < hi /\ (i - lo) mod step = 0.
Proof.
  intros Hstep. unfold py_range. rewrite list_elem_of_fmap. split.
  - intros (k & -> & Hk). apply elem_of_seq in Hk as [_ Hk]. simpl in Hk.
    assert (Hlt : step * (k + 1) <= hi - lo + (step - 1)).
    { etransitivity; [| apply (Nat.Div0.mul_div_le _ step)].
      apply Nat.mul_le_mono_l. lia. }
    split; [nia |].
    replace (lo + k * step - lo) with (k * step) by lia.
    apply Nat.Div0.mod_mul.
  - intros [Hi Hmod]. exists ((i - lo) / step).
    pose proof (Nat.div_mod_eq (i - lo) step) as Hdm. rewrite Hmod in Hdm.
    split; [lia |].
    apply elem_of_seq. split; [lia |]. simpl.
    apply Nat.Div0.div_lt_upper_bound.
    assert (step * ((i - lo) / step) = i - lo) by lia.
    apply Nat.lt_le_trans with (step * ((i - lo) / step + 1)); [lia |].
    assert (Hle : (i - lo) / step + 1 <= (hi - lo + (step - 1)) / step).
    { apply Nat.div_le_lower_bound; lia. }
    apply Nat.mul_le_mono_l. exact Hle.
Qed.

Lemma NoDup_py_range lo hi step : 0 < step -> NoDup (py_range lo hi step).
Proof.
  intros Hstep. unfold py_range. apply NoDup_fmap_2; [| apply NoDup_seq].
  intros j k Hjk. nia.
Qed.

Lemma slice_bound_stop len : slice_bound (-1) len = len - 1.
Proof. unfold slice_bound. simpl. lia. Qed.

Lemma slice_bound_start k len :
  (0 <= k)%Z -> slice_bound k len = Nat.min (Z.to_nat k) len.
Proof. intros Hk. unfold slice_bound. destruct (Z.ltb_spec k 0); [lia | done]. Qed.

(** [x[1:-1:2]] selects the odd indices strictly between the two ends. *)
Lemma elem_of_slice_odd len i :
  i ∈ slice_indices 1 (-1) 2 len <-> 0 < i < len - 1 /\ i mod 2 = 1.
Proof.
  unfold slice_indices. rewrite elem_of_py_range by lia.
  rewrite slice_bound_stop, slice_bound_start by lia.
  change (Z.to_nat 1) with 1.
  euclid2 i. euclid2 (i - Nat.min 1 len). lia.
Qed.

(** [x[2:-1:2]] selects the even indices strictly between the two ends. *)
Lemma elem_of_slice_even len i :
  i ∈ slice_indices 2 (-1) 2 len <-> 0 < i < len - 1 /\ i mod 2 = 0.
Proof.
  unfold slice_indices. rewrite elem_of_py_range by lia.
  rewrite slice_bound_stop, slice_bound_start by lia.
  change (Z.to_nat 2) with 2.
  euclid2 i. euclid2 (i - Nat.min 2 len). lia.
Qed.

Example slice_odd_of_7 : slice_indices 1 (-1) 2 7 = [1; 3; 5].
Proof. reflexivity. Qed.

Example slice_even_of_7 : slice_indices 2 (-1) 2 7 = [2; 4].
Proof. reflexivity. Qed.

Example slice_odd_of_4 : slice_indices 1 (-1) 2 4 = [1].
Proof. reflexivity. Qed.

Example slice_of_short_arrays :
  slice_indices 1 (-1) 2 0 = [] /\ slice_indices 1 (-1) 2 2 = []
  /\ slice_indices 2 (-1) 2 3 = [].
Proof. repeat split. Qed.

Lemma odd_mod2 i : Nat.odd i = true <-> i mod 2 = 1.
Proof.
  rewrite Nat.odd_spec. euclid2 i. split.
  - intros [m Hm]. lia.
  - intros Hm. exists (i / 2). lia.
Qed.

Section Proofs.
Context {F : Type} `{Float64 F}.

Abbreviation heap := (list (list F)).

Implicit Types (h : heap) (xs ys : list F) (l : loc).

Lemma lookup_foldr_alter (f : F -> F) (idx : list nat) xs i :
  NoDup idx ->
  foldr (fun j acc => alter f j acc) xs idx !! i
  = if decide (i ∈ idx) then f <$> xs !! i else xs !! i.
Proof.
  induction 1 as [| j idx Hj Hnd IH]; cbn [foldr].
  - rewrite decide_False by apply not_elem_of_nil. done.
  - rewrite list_lookup_alter. destruct (decide (j = i)) as [-> | Hne].
    + rewrite IH, decide_False by done.
      rewrite decide_True by apply list_elem_of_here. done.
    + rewrite IH. destruct (decide (i ∈ idx)) as [Hin | Hin].
      * rewrite decide_True by (by apply list_elem_of_further). done.
      * rewrite decide_False; [done |].
        rewrite elem_of_cons. intros [-> | ?]; done.
Qed.

Lemma length_foldr_alter (f : F -> F) (idx : list nat) xs :
  length (foldr (fun j acc => alter f j acc) xs idx) = length xs.
Proof. induction idx as [| j idx IH]; simpl; [done |]. by rewrite length_alter. Qed.

Lemma length_imul_slice start stop step c xs :
  length (imul_slice start stop step c xs) = length xs.
Proof. apply length_foldr_alter. Qed.

Lemma lookup_imul_slice start stop step c xs i :
  0 < step ->
  imul_slice start stop step c xs !! i
  = if decide (i ∈ slice_indices start stop step (length xs))
    then (fun v => fmul v c) <$> xs !! i else xs !! i.
Proof.
  intros Hstep. unfold imul_slice.
  apply lookup_foldr_alter. by apply NoDup_py_range.
Qed.

Lemma length_simpson_weighted xs : length (simpson_weighted xs) = length xs.
Proof. unfold simpson_weighted. by rewrite !length_imul_slice. Qed.

(** Lines 31 and 32, element by element. *)
Lemma lookup_simpson_weighted xs i :
  simpson_weighted xs !! i = scaled (simpson_factor (length xs) i) <$> xs !! i.
Proof.
  unfold simpson_weighted.
  rewrite !lookup_imul_slice, length_imul_slice by lia.
  unfold simpson_factor.
  pose proof (elem_of_slice_even (length xs) i) as HE.
  pose proof (elem_of_slice_odd (length xs) i) as HO.
  pose proof (odd_mod2 i) as Hodd.
  euclid2 i.
  destruct (decide (i ∈ slice_indices 2 (-1) 2 (length xs))) as [He | He];
    destruct (decide (i ∈ slice_indices 1 (-1) 2 (length xs))) as [Ho | Ho].
  - apply HE in He. apply HO in Ho. lia.
  - apply HE in He. rewrite decide_True by lia.
    destruct (Nat.odd i); [lia |].
    destruct (xs !! i); done.
  - apply HO in Ho. rewrite decide_True by lia.
    destruct (Nat.odd i); [| lia].
    destruct (xs !! i); done.
  - rewrite decide_False; [by destruct (xs !! i) |].
    intros Hi. destruct (decide (i mod 2 = 0)) as [Hm | Hm].
    + apply He, HE. done.
    + apply Ho, HO. lia.
Qed.

(** ** Rules for [wp] *)

Lemma wp_ret {A} (a : A) h Q E : Q a h -> wp (ret a) h Q E.
Proof. done. Qed.

Lemma wp_raise {A} e h (Q : A -> heap -> Prop) E : E e h -> wp (raise e) h Q E.
Proof. done. Qed.

Lemma wp_bind {A B} (m : M A) (k : A -> M B) h Q E :
  wp m h (fun a h' => wp (k a) h' Q E) E -> wp (bind m k) h Q E.
Proof. unfold wp, bind. destruct (m h) as [[a | e] h']; done. Qed.

Lemma wp_mono {A} (m : M A) h (Q Q' : A -> heap -> Prop) (E E' : exn -> heap -> Prop) :
  wp m h Q E ->
  (forall a h', Q a h' -> Q' a h') ->
  (forall e h', E e h' -> E' e h') ->
  wp m h Q' E'.
Proof. unfold wp. destruct (m h) as [[a | e] h']; auto. Qed.

Lemma wp_alloc xs h Q E : Q (length h) (h ++ [xs]) -> wp (alloc xs) h Q E.
Proof. done. Qed.

Lemma wp_load l h xs Q E : h !! l = Some xs -> Q xs h -> wp (load l) h Q E.
Proof. unfold wp, load. by intros ->. Qed.

Lemma wp_store l xs h Q E : l < length h -> Q tt (<[l := xs]> h) -> wp (store l xs) h Q E.
Proof. unfold wp, store. intros Hl. by rewrite decide_True. Qed.

Lemma wp_lift {A} (o : option A) e a h Q E : o = Some a -> Q a h -> wp (lift o e) h Q E.
Proof. by intros ->. Qed.

(** ** The store under updates and allocations *)

Lemma lookup_upd_other h p l (x y : list F) junk :
  l <> p -> h !! l = Some x -> (<[p := y]> h ++ junk) !! l = Some x.
Proof.
  intros Hne Hl. apply lookup_app_l_Some. by rewrite list_lookup_insert_ne.
Qed.

Lemma lookup_upd_same h p (y : list F) junk :
  p < length h -> (<[p := y]> h ++ junk) !! p = Some y.
Proof. intros Hp. apply lookup_app_l_Some. by apply list_lookup_insert_eq. Qed.

Lemma upd_upd h p (y z : list F) j1 j2 :
  p < length h ->
  <[p := z]> (<[p := y]> h ++ j1) ++ j2 = <[p := z]> h ++ (j1 ++ j2).
Proof.
  intros Hp. rewrite insert_app_l by (by rewrite length_insert).
  by rewrite list_insert_insert_eq, <- app_assoc.
Qed.

Lemma upd_fresh h (x y : list F) : <[length h := y]> (h ++ [x]) = h ++ [y].
Proof. rewrite insert_app_r_alt by lia. by rewrite Nat.sub_diag. Qed.

Lemma lookup_fresh h (x : list F) junk : (h ++ x :: junk) !! length h = Some x.
Proof. by apply list_lookup_middle. Qed.

(** ** numpy on the store *)

Lemma wp_np_power x n h xs Q E :
  h !! x = Some xs ->
  Q (length h) (h ++ [monomial xs n]) ->
  wp (np_power x n) h Q E.
Proof.
  intros Hx HQ. apply wp_bind. eapply wp_load; [done |]. by apply wp_alloc.
Qed.

Lemma wp_np_ones_like x h xs Q E :
  h !! x = Some xs ->
  Q (length h) (h ++ [replicate (length xs) f1]) ->
  wp (np_ones_like x) h Q E.
Proof.
  intros Hx HQ. apply wp_bind. eapply wp_load; [done |]. by apply wp_alloc.
Qed.

Lemma wp_np_zeros_like x h xs Q E :
  h !! x = Some xs ->
  Q (length h) (h ++ [replicate (length xs) f0]) ->
  wp (np_zeros_like x) h Q E.
Proof.
  intros Hx HQ. apply wp_bind. eapply wp_load; [done |]. by apply wp_alloc.
Qed.

Lemma wp_np_smul c y h ys Q E :
  h !! y = Some ys ->
  Q (length h) (h ++ [fmul c <$> ys]) ->
  wp (np_smul c y) h Q E.
Proof.
  intros Hy HQ. apply wp_bind. eapply wp_load; [done |]. by apply wp_alloc.
Qed.

Lemma wp_np_div_s x c h xs Q E :
  h !! x = Some xs ->
  Q (length h) (h ++ [(fun v => fdiv v c) <$> xs]) ->
  wp (np_div_s x c) h Q E.
Proof.
  intros Hx HQ. apply wp_bind. eapply wp_load; [done |]. by apply wp_alloc.
Qed.

Lemma wp_np_apply f x h xs Q E :
  h !! x = Some xs ->
  Q (length h) (h ++ [f <$> xs]) ->
  wp (np_apply f x) h Q E.
Proof.
  intros Hx HQ. apply wp_bind. eapply wp_load; [done |]. by apply wp_alloc.
Qed.

Lemma broadcast2_same op xs ys :
  length xs = length ys -> broadcast2 op xs ys = Some (zip_with op xs ys).
Proof. intros Hlen. unfold broadcast2. by rewrite decide_True. Qed.

Lemma broadcast_to_same n ys : length ys = n -> broadcast_to n ys = Some ys.
Proof. intros Hlen. unfold broadcast_to. by rewrite decide_True. Qed.

Lemma wp_np_mul x y h xs ys Q E :
  h !! x = Some xs -> h !! y = Some ys -> length xs = length ys ->
  Q (length h) (h ++ [zip_with fmul xs ys]) ->
  wp (np_mul x y) h Q E.
Proof.
  intros Hx Hy Hlen HQ. apply wp_bind. eapply wp_load; [done |].
  apply wp_bind. eapply wp_load; [done |].
  apply wp_bind. eapply wp_lift; [by apply broadcast2_same |].
  by apply wp_alloc.
Qed.

Lemma wp_np_iop op x y h xs ys Q E :
  h !! x = Some xs -> h !! y = Some ys -> length ys = length xs ->
  Q tt (<[x := zip_with op xs ys]> h) ->
  wp (np_iop op x y) h Q E.
Proof.
  intros Hx Hy Hlen HQ. apply wp_bind. eapply wp_load; [done |].
  apply wp_bind. eapply wp_load; [done |].
  apply wp_bind. eapply wp_lift; [by apply broadcast_to_same |].
  apply wp_store; [by eapply lookup_lt_Some | done].
Qed.

Lemma wp_np_imul_slice x start stop step c h xs Q E :
  h !! x = Some xs ->
  Q tt (<[x := imul_slice start stop step c xs]> h) ->
  wp (np_imul_slice x start stop step c) h Q E.
Proof.
  intros Hx HQ. apply wp_bind. eapply wp_load; [done |].
  apply wp_store; [by eapply lookup_lt_Some | done].
Qed.

Lemma wp_np_setrow B n v l h vs Q E :
  rows B !! n = Some l -> l < length h ->
  h !! v = Some vs -> length vs = shape1 B ->
  Q tt (<[l := vs]> h) ->
  wp (np_setrow B n v) h Q E.
Proof.
  intros Hn Hl Hv Hlen HQ. apply wp_bind. eapply wp_lift; [done |].
  apply wp_bind. eapply wp_load; [done |].
  apply wp_bind. eapply wp_lift; [by apply broadcast_to_same |].
  by apply wp_store.
Qed.

(** ** [integration_simpson_sampled] *)

(** With [N] other than zero and [fx] an array of the store, the call
    returns [simpson_value] and leaves the weighted samples in [fx]. *)
Lemma wp_integration a b fx N h xs Q E :
  N <> 0 -> h !! fx = Some xs ->
  Q (simpson_value a b xs N) (<[fx := simpson_weighted xs]> h) ->
  wp (integration_simpson_sampled a b fx N) h Q E.
Proof.
  intros HN Hfx HQ. pose proof (lookup_lt_Some _ _ _ Hfx) as Hlt.
  unfold integration_simpson_sampled.
  apply wp_bind. unfold py_div_int. rewrite decide_False by done. apply wp_ret.
  apply wp_bind. eapply wp_np_imul_slice; [done |].
  apply wp_bind. eapply wp_np_imul_slice; [by apply list_lookup_insert_eq |].
  rewrite list_insert_insert_eq.
  apply wp_bind. apply wp_bind. eapply wp_load; [by apply list_lookup_insert_eq |].
  apply wp_ret. apply wp_ret. exact HQ.
Qed.

(** ** The accumulation loops *)

Lemma length_add_component a b N vs acc ek :
  length ek = length acc -> length (add_component a b N vs acc ek) = length acc.
Proof.
  intros Hlen. unfold add_component.
  rewrite length_zip_with, length_fmap. lia.
Qed.

Lemma length_fold_add_component a b N vs es acc :
  Forall (fun ek => length ek = length acc) es ->
  length (fold_left (add_component a b N vs) es acc) = length acc.
Proof.
  revert acc. induction es as [| ek es IH]; intros acc Hes; [done |].
  apply Forall_cons in Hes as [Hek Hes]. cbn [fold_left].
  rewrite IH; rewrite length_add_component by done; [done |].
  exact Hes.
Qed.

(** One turn: the temporaries [v * ek] and [c * ek] are allocated at the
    end of the store, the first is weighted in place by the integration,
    and only the accumulator changes among the arrays that existed. *)
Lemma wp_projection_step B a b N v proj k lk h vs acc ek Q E :
  N <> 0 ->
  rows B !! k = Some lk -> h !! lk = Some ek ->
  h !! v = Some vs -> h !! proj = Some acc ->
  length vs = length ek -> length ek = length acc ->
  (forall junk, Q tt (<[proj := add_component a b N vs acc ek]> h ++ junk)) ->
  wp (projection_step B a b N v proj k) h Q E.
Proof.
  intros HN Hk Hlk Hv Hproj Hlen1 Hlen2 HQ.
  pose proof (lookup_lt_Some _ _ _ Hlk) as Hlk_lt.
  pose proof (lookup_lt_Some _ _ _ Hproj) as Hproj_lt.
  unfold projection_step.
  apply wp_bind. eapply wp_lift; [done |].
  apply wp_bind. eapply wp_np_mul; [done .. |].
  apply wp_bind. eapply wp_integration; [done | apply lookup_fresh |].
  rewrite upd_fresh.
  apply wp_bind. eapply wp_np_smul; [by apply lookup_app_l_Some |].
  eapply wp_np_iop.
  - by do 2 apply lookup_app_l_Some.
  - apply lookup_fresh.
  - rewrite length_fmap. done.
  - rewrite <- app_assoc, insert_app_l by done. apply HQ.
Qed.

Lemma wp_projection_loop B a b N v proj vs es :
  forall s h acc Q E,
  N <> 0 ->
  h !! v = Some vs -> v <> proj -> h !! proj = Some acc ->
  length vs = length acc ->
  (forall i ek, es !! i = Some ek ->
     exists lk, rows B !! (s + i) = Some lk /\ lk <> proj /\
                h !! lk = Some ek /\ length ek = length acc) ->
  (forall junk,
     Q tt (<[proj := fold_left (add_component a b N vs) es acc]> h ++ junk)) ->
  wp (for_each (seq s (length es)) (projection_step B a b N v proj)) h Q E.
Proof.
  induction es as [| e es IH]; intros s h acc Q E HN Hv Hne Hproj Hlen Hrows HQ.
  - apply wp_ret. specialize (HQ []). rewrite app_nil_r in HQ.
    cbn [fold_left] in HQ. by rewrite list_insert_id in HQ.
  - pose proof (lookup_lt_Some _ _ _ Hproj) as Hproj_lt.
    cbn [length seq for_each]. apply wp_bind.
    destruct (Hrows 0 e eq_refl) as (lk & Hlk & Hlkne & Hhlk & Hlen_e).
    rewrite Nat.add_0_r in Hlk.
    eapply wp_projection_step; [done .. | lia | done |].
    intros j1. apply IH with (acc := add_component a b N vs acc e).
    + done.
    + by apply lookup_upd_other.
    + done.
    + by apply lookup_upd_same.
    + rewrite length_add_component; done.
    + intros i ek Hi. destruct (Hrows (S i) ek Hi) as (l' & Hl' & Hl'ne & Hhl' & Hlen').
      exists l'. replace (S s + i) with (s + S i) by lia.
      split; [done |]. split; [done |].
      split; [by apply lookup_upd_other |].
      rewrite length_add_component; done.
    + intros j2. rewrite upd_upd by done. apply HQ.
Qed.

(** ** [get_projection] *)

Lemma length_arange N : length (arange (F := F) N) = N.
Proof. unfold arange. by rewrite length_fmap, length_seq. Qed.

Lemma length_linspace a b N : length (linspace a b N) = N.
Proof.
  unfold linspace.
  assert (Hy : forall y : list F, length y = N ->
            length (if decide (1 < N) then <[N - 1 := b]> y else y) = N).
  { intros y Hy. destruct (decide (1 < N)); [by rewrite length_insert | done]. }
  apply Hy. rewrite length_fmap.
  repeat case_match; by rewrite length_fmap, length_arange.
Qed.

Lemma read_matrix_lookup B h es i ek :
  read_matrix B h = Some es -> es !! i = Some ek ->
  exists lk, rows B !! i = Some lk /\ h !! lk = Some ek.
Proof.
  unfold read_matrix. intros Hm%mapM_Some_1 Hi.
  by eapply Forall2_lookup_r in Hm.
Qed.

Lemma read_matrix_length B h es : read_matrix B h = Some es -> length (rows B) = length es.
Proof. unfold read_matrix. apply length_mapM. Qed.

Lemma wp_returned_array (m : M loc) h r :
  wp m h (fun p h' => h' !! p = Some r) (fun _ _ => False) ->
  returned_array (m h) = Ok r.
Proof.
  unfold wp, returned_array. destruct (m h) as [[p | e] h']; [| done].
  by intros ->.
Qed.

Lemma wp_get_projection B f a b h es Q E :
  shape1 B <> 0 ->
  read_matrix B h = Some es ->
  Forall (fun ek => length ek = shape1 B) es ->
  (forall p h', h `prefix_of` h' ->
     h' !! p = Some (project_onto a b (shape1 B) es (f <$> linspace a b (shape1 B))) ->
     Q p h') ->
  wp (get_projection B f a b) h Q E.
Proof.
  intros HN Hm Hlen HQ. unfold get_projection, np_linspace.
  set (N := shape1 B) in *. set (grid := linspace a b N).
  assert (Hgrid : length grid = N) by apply length_linspace.
  apply wp_bind, wp_alloc.
  apply wp_bind. eapply wp_np_apply; [apply lookup_fresh |].
  apply wp_bind. eapply wp_np_zeros_like; [apply lookup_app_l_Some, lookup_fresh |].
  set (h3 := ((h ++ [grid]) ++ [f <$> grid]) ++ [replicate (length grid) f0]).
  apply wp_bind. rewrite (read_matrix_length _ _ _ Hm).
  eapply wp_projection_loop with (vs := f <$> grid)
                                 (acc := replicate (length grid) f0).
  - done.
  - unfold h3. apply lookup_app_l_Some, lookup_fresh.
  - rewrite !length_app. simpl. lia.
  - unfold h3. apply lookup_fresh.
  - by rewrite length_fmap, length_replicate.
  - intros i ek Hi.
    destruct (read_matrix_lookup _ _ _ _ _ Hm Hi) as (lk & Hlk & Hhlk).
    exists lk. split; [done |].
    pose proof (lookup_lt_Some _ _ _ Hhlk) as Hlt.
    split; [rewrite !length_app; simpl; lia |].
    split; [unfold h3; by do 3 apply lookup_app_l_Some |].
    rewrite length_replicate, Hgrid.
    eapply Forall_lookup_1 in Hlen; done.
  - intros junk. apply wp_ret. apply HQ.
    + apply prefix_app_r.
      unfold h3. rewrite insert_app_r_alt by lia. rewrite Nat.sub_diag. simpl.
      do 3 apply prefix_app_r. done.
    + rewrite lookup_upd_same.
      * unfold project_onto. by rewrite length_fmap.
      * unfold h3. rewrite !length_app. simpl. lia.
Qed.

(** ** [legendre_polynomial_normalized] *)

Ltac norm_len :=
  repeat first [ rewrite length_app | rewrite length_insert
               | rewrite length_fmap | rewrite length_replicate ];
  cbn [length].

Ltac len := norm_len; lia.

Lemma wp_alloc_rows count row :
  forall h (Q : list loc -> heap -> Prop) E,
  Q (seq (length h) count) (h ++ replicate count row) ->
  wp (alloc_rows count row) h Q E.
Proof.
  induction count as [| c IH]; intros h Q E HQ; cbn [alloc_rows].
  - apply wp_ret. by rewrite app_nil_r in HQ.
  - apply wp_bind, wp_alloc. apply wp_bind, IH. apply wp_ret.
    rewrite length_app, Nat.add_1_r, <- app_assoc. exact HQ.
Qed.

Lemma length_monomial xs n : length (monomial xs n) = length xs.
Proof. apply length_fmap. Qed.

Lemma length_project_onto a b N es vs :
  Forall (fun ek => length ek = length vs) es ->
  length (project_onto a b N es vs) = length vs.
Proof.
  intros Hes. unfold project_onto.
  rewrite length_fold_add_component; rewrite length_replicate; done.
Qed.

Lemma length_gram_row a b N grid es n :
  Forall (fun ek => length ek = length grid) es ->
  length (gram_row a b N grid es n) = length grid.
Proof.
  intros Hes. unfold gram_row, normalized, orthogonalized.
  rewrite length_fmap, length_zip_with, length_project_onto, length_monomial.
  - lia.
  - by rewrite length_monomial.
Qed.

Lemma length_first_row a b N grid : length (first_row a b N grid) = length grid.
Proof. unfold first_row. by rewrite length_fmap, length_replicate. Qed.

(** The seeding loop writes to rows of [BASE] only: the grid stays and
    the store does not shrink. *)
Lemma wp_seed_loop B lx lb count grid idx :
  forall h (Q : unit -> heap -> Prop) E,
  rows B = seq lb count -> shape1 B = length grid -> lx < lb ->
  Forall (fun n => n < count) idx ->
  h !! lx = Some grid -> lb + count <= length h ->
  (forall h', h' !! lx = Some grid -> lb + count <= length h' -> Q tt h') ->
  wp (for_each idx (seed_row B lx)) h Q E.
Proof.
  induction idx as [| n idx IH]; intros h Q E Hrows Hshape Hlt Hidx Hlx Hlen HQ.
  - apply wp_ret. by apply HQ.
  - apply Forall_cons in Hidx as [Hn Hidx].
    cbn [for_each]. apply wp_bind. unfold seed_row.
    apply wp_bind. eapply wp_np_power; [done |].
    eapply wp_np_setrow with (l := lb + n).
    + rewrite Hrows. by apply lookup_seq_lt.
    + len.
    + apply lookup_fresh.
    + by rewrite length_monomial.
    + apply IH; try done.
      * rewrite list_lookup_insert_ne by lia. by apply lookup_app_l_Some.
      * len.
Qed.

(** One turn of the Gram-Schmidt loop: among the arrays that existed,
    only row [n] of [BASE] changes, and it receives [gram_row]. *)
Lemma wp_gram_schmidt_row B lx lb count a b N n grid es h Q E :
  rows B = seq lb count -> shape1 B = N -> N <> 0 -> lx < lb ->
  n = length es -> n < count -> length grid = N ->
  h !! lx = Some grid -> lb + count <= length h ->
  Forall (fun ek => length ek = N) es ->
  (forall k ek, es !! k = Some ek -> h !! (lb + k) = Some ek) ->
  (forall h', length h <= length h' ->
     (forall l, l < length h -> l <> lb + n -> h' !! l = h !! l) ->
     h' !! (lb + n) = Some (gram_row a b N grid es n) ->
     Q tt h') ->
  wp (gram_schmidt_row B lx a b N n) h Q E.
Proof.
  intros Hrows Hshape HN Hlt -> Hcount Hgrid Hlx Hlen Hes Hheld HQ.
  set (n := length es) in *.
  unfold gram_schmidt_row.
  apply wp_bind. eapply wp_np_power; [done |].
  apply wp_bind. eapply wp_np_zeros_like; [apply lookup_fresh |].
  set (wn := monomial grid n).
  assert (Hwn : length wn = N) by (unfold wn; by rewrite length_monomial).
  set (h2 := (h ++ [wn]) ++ [replicate (length wn) f0]).
  apply wp_bind. unfold n at 1.
  eapply wp_projection_loop with (vs := wn) (acc := replicate (length wn) f0).
  - done.
  - unfold h2. apply lookup_app_l_Some, lookup_fresh.
  - len.
  - unfold h2. apply lookup_fresh.
  - by rewrite length_replicate.
  - intros i ek Hi. exists (lb + i).
    pose proof (lookup_lt_Some _ _ _ Hi) as Hi_lt.
    split; [rewrite Hrows; apply lookup_seq_lt; lia |].
    split; [len |].
    split; [unfold h2; do 2 apply lookup_app_l_Some; by apply Hheld |].
    rewrite length_replicate, Hwn. by eapply Forall_lookup_1 in Hes.
  - intros junk.
    change (fold_left (add_component a b N wn) es (replicate (length wn) f0))
      with (project_onto a b N es wn).
    set (p := project_onto a b N es wn).
    assert (Hp : length p = N).
    { unfold p. rewrite length_project_onto; [done |]. by rewrite Hwn. }
    match goal with |- wp _ ?hh _ _ => set (h4 := hh) end.
    assert (Hh4w : h4 !! length h = Some wn).
    { unfold h4. apply lookup_upd_other; [len |].
      unfold h2. apply lookup_app_l_Some, lookup_fresh. }
    assert (Hh4p : h4 !! length (h ++ [wn]) = Some p).
    { unfold h4. apply lookup_upd_same. unfold h2. len. }
    assert (Hh4len : length h + 2 <= length h4) by (unfold h4, h2; len).
    assert (Hh4old : forall l, l < length h -> h4 !! l = h !! l).
    { intros l Hl. unfold h4, h2.
      rewrite lookup_app_l by len. rewrite list_lookup_insert_ne by len.
      rewrite !lookup_app_l by len. done. }
    apply wp_bind. eapply wp_np_iop; [exact Hh4w | exact Hh4p | lia |].
    set (w := zip_with fsub wn p).
    assert (Hw : length w = N) by (unfold w; rewrite length_zip_with; lia).
    apply wp_bind.
    eapply wp_np_power; [apply list_lookup_insert_eq; lia |].
    apply wp_bind.
    eapply wp_integration; [done | apply lookup_fresh |].
    rewrite upd_fresh.
    apply wp_bind.
    eapply wp_np_div_s;
      [apply lookup_app_l_Some, list_lookup_insert_eq; lia |].
    eapply wp_np_setrow with (l := lb + n).
    + rewrite Hrows. by apply lookup_seq_lt.
    + len.
    + apply lookup_fresh.
    + rewrite length_fmap. lia.
    + apply HQ.
      * len.
      * intros l Hl Hne. rewrite list_lookup_insert_ne by lia.
        rewrite !lookup_app_l by len. rewrite list_lookup_insert_ne by lia.
        by apply Hh4old.
      * apply list_lookup_insert_eq. len.
Qed.

Lemma wp_gram_schmidt_loop B lx lb count a b N grid m :
  forall es h (Q : unit -> heap -> Prop) E,
  rows B = seq lb count -> shape1 B = N -> N <> 0 -> lx < lb ->
  length es + m <= count -> length grid = N ->
  h !! lx = Some grid -> lb + count <= length h ->
  Forall (fun ek => length ek = N) es ->
  (forall k ek, es !! k = Some ek -> h !! (lb + k) = Some ek) ->
  (forall h',
     (forall k ek,
        fold_left (gram_extend a b N grid) (seq (length es) m) es !! k = Some ek ->
        h' !! (lb + k) = Some ek) ->
     Q tt h') ->
  wp (for_each (seq (length es) m) (gram_schmidt_row B lx a b N)) h Q E.
Proof.
  induction m as [| m IH];
    intros es h Q E Hrows Hshape HN Hlt Hcount Hgrid Hlx Hlen Hes Hheld HQ.
  - apply wp_ret. by apply HQ.
  - cbn [seq for_each]. apply wp_bind.
    eapply wp_gram_schmidt_row; [done .. | lia | done | done | done | done | done |].
    intros h' Hlen' Hframe Hrow.
    set (es' := gram_extend a b N grid es (length es)).
    assert (Hes' : length es' = S (length es)).
    { unfold es', gram_extend. rewrite length_app. simpl. lia. }
    rewrite <- Hes'. apply IH; try done.
    + lia.
    + rewrite Hframe; [done | |]; lia.
    + lia.
    + unfold es', gram_extend. apply Forall_app_2; [done |].
      apply Forall_singleton. rewrite length_gram_row; [done |].
      by rewrite Hgrid.
    + intros k ek Hk. unfold es', gram_extend in Hk.
      apply lookup_snoc_Some in Hk as [[Hklt Hk] | [-> <-]]; [| done].
      rewrite Hframe; [by apply Hheld | |]; lia.
    + intros h'' Hheld''. apply HQ. cbn [seq fold_left].
      rewrite Hes' in Hheld''. exact Hheld''.
Qed.

Lemma length_gram_fold a b N grid idx :
  forall es,
  length (fold_left (gram_extend a b N grid) idx es) = length es + length idx.
Proof.
  induction idx as [| n idx IH]; intros es; cbn [fold_left length]; [lia |].
  rewrite IH. unfold gram_extend. rewrite length_app. simpl. lia.
Qed.

Lemma Forall_length_gram_fold a b N grid idx :
  forall es,
  Forall (fun ek => length ek = length grid) es ->
  Forall (fun ek => length ek = length grid)
         (fold_left (gram_extend a b N grid) idx es).
Proof.
  induction idx as [| n idx IH]; intros es Hes; cbn [fold_left]; [done |].
  apply IH. unfold gram_extend. apply Forall_app_2; [done |].
  apply Forall_singleton. by apply length_gram_row.
Qed.

Lemma length_gram_schmidt a b N count :
  0 < count -> length (gram_schmidt a b N count) = count.
Proof.
  intros Hc. unfold gram_schmidt. rewrite length_gram_fold, length_seq. simpl. lia.
Qed.

Lemma Forall_length_gram_schmidt a b N count :
  Forall (fun ek => length ek = N) (gram_schmidt a b N count).
Proof.
  unfold gram_schmidt.
  pose proof (Forall_length_gram_fold a b N (linspace a b N) (seq 1 (count - 1))
                [first_row a b N (linspace a b N)]) as Hfold.
  rewrite length_linspace in Hfold. apply Hfold.
  apply Forall_singleton. by rewrite length_first_row, length_linspace.
Qed.

Lemma read_matrix_seq B lb h es :
  rows B = seq lb (length es) ->
  (forall k ek, es !! k = Some ek -> h !! (lb + k) = Some ek) ->
  read_matrix B h = Some es.
Proof.
  intros Hrows Hheld. unfold read_matrix. apply mapM_Some_2.
  apply Forall2_same_length_lookup_2.
  - by rewrite Hrows, length_seq.
  - intros i l ek Hl Hek. rewrite Hrows in Hl.
    apply lookup_seq in Hl as [-> _]. by apply Hheld.
Qed.

(** Lines 83 to 100 with at least one row and [N] other than zero: the
    rows of [BASE] end up holding [gram_schmidt]. *)
Lemma wp_normalize_rows B lx lb count a b N h Q E :
  rows B = seq lb count -> shape1 B = N -> N <> 0 -> lx < lb -> 0 < count ->
  h !! lx = Some (linspace a b N) -> lb + count <= length h ->
  (forall h', read_matrix B h' = Some (gram_schmidt a b N count) -> Q B h') ->
  wp (normalize_rows B lx count N a b) h Q E.
Proof.
  intros Hrows Hshape HN Hlt Hcount Hlx Hlen HQ.
  set (grid := linspace a b N) in *.
  assert (Hgrid : length grid = N) by apply length_linspace.
  unfold normalize_rows.
  apply wp_bind. eapply wp_np_ones_like; [done |].
  apply wp_bind. eapply wp_integration; [done | apply lookup_fresh |].
  rewrite upd_fresh.
  apply wp_bind. eapply wp_np_ones_like; [by apply lookup_app_l_Some |].
  apply wp_bind. eapply wp_np_div_s; [apply lookup_fresh |].
  apply wp_bind. eapply wp_np_setrow with (l := lb + 0).
  { rewrite Hrows. by apply lookup_seq_lt. }
  { len. }
  { apply lookup_fresh. }
  { rewrite length_fmap, length_replicate. lia. }
  apply wp_bind.
  change (seq 1 (count - 1))
    with (seq (length [first_row a b N grid]) (count - 1)).
  eapply wp_gram_schmidt_loop with (lb := lb) (count := count) (grid := grid);
    try done.
  - simpl. lia.
  - rewrite list_lookup_insert_ne by lia. by do 3 apply lookup_app_l_Some.
  - len.
  - apply Forall_singleton. by rewrite length_first_row.
  - intros k ek Hk. apply list_lookup_singleton_Some in Hk as [-> <-].
    apply list_lookup_insert_eq. len.
  - intros h' Hheld. apply wp_ret. apply HQ.
    apply read_matrix_seq with (lb := lb); [| exact Hheld].
    by rewrite length_gram_schmidt.
Qed.

Lemma wp_seeded_prefix idx count N a b h (Q : ndarray2 -> heap -> Prop) E :
  Forall (fun n => n < count) idx ->
  (forall B lx lb h',
     rows B = seq lb count -> shape1 B = N -> lx < lb ->
     h' !! lx = Some (linspace a b N) -> lb + count <= length h' ->
     wp (normalize_rows B lx count N a b) h' Q E) ->
  wp (seeded_then_normalized idx count N a b) h Q E.
Proof.
  intros Hidx Hnorm. unfold seeded_then_normalized, np_linspace, np_zeros2.
  apply wp_bind, wp_alloc.
  apply wp_bind. apply wp_bind, wp_alloc_rows. apply wp_ret.
  apply wp_bind.
  eapply wp_seed_loop with (lx := length h) (lb := length (h ++ [linspace a b N]))
                           (count := count) (grid := linspace a b N).
  - done.
  - by rewrite length_linspace.
  - len.
  - done.
  - apply lookup_app_l_Some, lookup_fresh.
  - len.
  - intros h' Hlx Hlen. eapply Hnorm; [done .. | len | done | done].
Qed.

Lemma wp_seeded idx count N a b h (Q : ndarray2 -> heap -> Prop) E :
  Forall (fun n => n < count) idx -> 0 < count -> N <> 0 ->
  (forall B h',
     read_matrix B h' = Some (gram_schmidt a b N count) -> Q B h') ->
  wp (seeded_then_normalized idx count N a b) h Q E.
Proof.
  intros Hidx Hcount HN HQ. apply wp_seeded_prefix; [done |].
  intros B lx lb h' Hrows Hshape Hlt Hlx Hlen.
  eapply wp_normalize_rows; [done .. |].
  intros h'' Hm. by apply HQ.
Qed.

(** With [N = 0] the first integration raises [ZeroDivisionError]. *)
Lemma wp_seeded_zero_division idx count a b h (Q : ndarray2 -> heap -> Prop)
    (E : exn -> heap -> Prop) :
  Forall (fun n => n < count) idx ->
  (forall h', E ZeroDivisionError h') ->
  wp (seeded_then_normalized idx count 0 a b) h Q E.
Proof.
  intros Hidx HE. apply wp_seeded_prefix; [done |].
  intros B lx lb h' Hrows Hshape Hlt Hlx Hlen. unfold normalize_rows.
  apply wp_bind. eapply wp_np_ones_like; [done |].
  apply wp_bind. unfold integration_simpson_sampled.
  apply wp_bind. apply wp_raise. apply HE.
Qed.

(** With no row at all, [BASE[0, :] = e1] raises [IndexError]. *)
Lemma wp_seeded_index_error N a b h (Q : ndarray2 -> heap -> Prop)
    (E : exn -> heap -> Prop) :
  N <> 0 ->
  (forall h', E IndexError h') ->
  wp (seeded_then_normalized [] 0 N a b) h Q E.
Proof.
  intros HN HE. apply wp_seeded_prefix; [done |].
  intros B lx lb h' Hrows Hshape Hlt Hlx Hlen. unfold normalize_rows.
  apply wp_bind. eapply wp_np_ones_like; [done |].
  apply wp_bind. eapply wp_integration; [done | apply lookup_fresh |].
  rewrite upd_fresh.
  apply wp_bind. eapply wp_np_ones_like; [by apply lookup_app_l_Some |].
  apply wp_bind. eapply wp_np_div_s; [apply lookup_fresh |].
  apply wp_bind. unfold np_setrow. apply wp_bind.
  unfold np_row. rewrite Hrows. apply wp_raise. apply HE.
Qed.

Lemma legendre_seeded count N a b :
  legendre_polynomial_normalized count N a b
  = seeded_then_normalized (seq 0 count) count N a b.
Proof. reflexivity. Qed.

Lemma legendre_unseeded_seeded count N a b :
  legendre_polynomial_unseeded count N a b
  = seeded_then_normalized (seq 0 (Nat.min 1 count)) count N a b.
Proof. reflexivity. Qed.

Lemma wp_returned_matrix_ok (m : M ndarray2) h es :
  wp m h (fun B h' => read_matrix B h' = Some es) (fun _ _ => False) ->
  returned_matrix (m h) = Ok es.
Proof.
  unfold wp, returned_matrix. destruct (m h) as [[B | e] h']; [| done].
  by intros ->.
Qed.

Lemma wp_returned_matrix_raise (m : M ndarray2) h e :
  wp m h (fun _ _ => False) (fun e' _ => e' = e) ->
  returned_matrix (m h) = Raise e.
Proof.
  unfold wp, returned_matrix. destruct (m h) as [[B | e'] h']; [done |].
  by intros ->.
Qed.

(** The matrix that the seeded shape returns, in every case. *)
Lemma returned_matrix_seeded idx count N a b h :
  Forall (fun n => n < count) idx ->
  returned_matrix (seeded_then_normalized idx count N a b h)
  = if decide (N = 0) then Raise ZeroDivisionError
    else if decide (count = 0) then Raise IndexError
    else Ok (gram_schmidt a b N count).
Proof.
  intros Hidx. destruct (decide (N = 0)) as [-> | HN].
  { apply wp_returned_matrix_raise. by apply wp_seeded_zero_division. }
  destruct (decide (count = 0)) as [-> | Hcount].
  { destruct idx as [| n idx]; [| apply Forall_cons in Hidx as [? _]; lia].
    apply wp_returned_matrix_raise. by apply wp_seeded_index_error. }
  apply wp_returned_matrix_ok. apply wp_seeded; try done. lia.
Qed.

(** ** What a call leaves untouched *)

Lemma prefix_insert_ge (h0 h : heap) l (v : list F) :
  h0 `prefix_of` h -> length h0 <= l -> h0 `prefix_of` <[l := v]> h.
Proof.
  intros [k ->] Hl. rewrite insert_app_r_alt by done. by apply prefix_app_r.
Qed.

Ltac frame_crush :=
  unfold wp, fresh_in, kept, bind, load, store, lift, alloc, ret, raise;
  intros;
  repeat (case_match; simplify_eq /=);
  repeat split;
  eauto using prefix_app_r, prefix_insert_ge, prefix_length.

Lemma frame_load h0 l h :
  h0 `prefix_of` h -> wp (load l) h (kept h0) (kept h0).
Proof. frame_crush. Qed.

Lemma frame_alloc h0 xs h :
  h0 `prefix_of` h -> wp (alloc xs) h (fresh_in h0) (kept h0).
Proof. frame_crush. Qed.

Lemma frame_store h0 l xs h :
  h0 `prefix_of` h -> length h0 <= l -> wp (store l xs) h (kept h0) (kept h0).
Proof. frame_crush. Qed.

Lemma frame_np_mul h0 x y h :
  h0 `prefix_of` h -> wp (np_mul x y) h (fresh_in h0) (kept h0).
Proof. unfold np_mul. frame_crush. Qed.

Lemma frame_np_smul h0 c y h :
  h0 `prefix_of` h -> wp (np_smul c y) h (fresh_in h0) (kept h0).
Proof. unfold np_smul. frame_crush. Qed.

Lemma frame_np_iop h0 op x y h :
  h0 `prefix_of` h -> length h0 <= x -> wp (np_iop op x y) h (kept h0) (kept h0).
Proof. unfold np_iop. frame_crush. Qed.

Lemma frame_np_imul_slice h0 x start stop step c h :
  h0 `prefix_of` h -> length h0 <= x ->
  wp (np_imul_slice x start stop step c) h (kept h0) (kept h0).
Proof. unfold np_imul_slice. frame_crush. Qed.

Lemma frame_integration h0 a b fx N h :
  h0 `prefix_of` h -> length h0 <= fx ->
  wp (integration_simpson_sampled a b fx N) h (kept h0) (kept h0).
Proof.
  intros Hpre Hfx. unfold integration_simpson_sampled.
  apply wp_bind. unfold py_div_int.
  destruct (decide (N = 0)); [by apply wp_raise | apply wp_ret].
  apply wp_bind. eapply wp_mono; [by apply frame_np_imul_slice | | done].
  intros ? h1 Hh1. apply wp_bind.
  eapply wp_mono; [by apply frame_np_imul_slice | | done].
  intros ? h2 Hh2. apply wp_bind. unfold np_sum_arr.
  apply wp_bind. eapply wp_mono; [by apply frame_load | | done].
  intros xs h3 Hh3. apply wp_ret, wp_ret. exact Hh3.
Qed.

Lemma frame_projection_step h0 B a b N v proj k h :
  h0 `prefix_of` h -> length h0 <= proj ->
  wp (projection_step B a b N v proj k) h (kept h0) (kept h0).
Proof.
  intros Hpre Hproj. unfold projection_step.
  apply wp_bind. unfold np_row.
  destruct (rows B !! k) as [ek |]; [apply wp_ret | by apply wp_raise].
  apply wp_bind. eapply wp_mono; [by apply frame_np_mul | | done].
  intros t h1 [Hh1 Ht]. apply wp_bind.
  eapply wp_mono; [by apply frame_integration | | done].
  intros c h2 Hh2. apply wp_bind.
  eapply wp_mono; [by apply frame_np_smul | | done].
  intros u h3 [Hh3 Hu]. by apply frame_np_iop.
Qed.

Lemma frame_projection_loop h0 B a b N v proj idx :
  forall h,
  h0 `prefix_of` h -> length h0 <= proj ->
  wp (for_each idx (projection_step B a b N v proj)) h (kept h0) (kept h0).
Proof.
  induction idx as [| k idx IH]; intros h Hpre Hproj; [by apply wp_ret |].
  cbn [for_each]. apply wp_bind.
  eapply wp_mono; [by apply frame_projection_step | | done].
  intros ? h1 Hh1. by apply IH.
Qed.

(** Whatever its arguments and however it ends, [get_projection] leaves
    the arrays that existed before the call as they were. *)
Lemma frame_get_projection B f a b h :
  h `prefix_of` snd (get_projection B f a b h).
Proof.
  assert (Hwp : wp (get_projection B f a b) h (kept h) (kept h)).
  { unfold get_projection, np_linspace.
    apply wp_bind, wp_alloc.
    apply wp_bind. eapply wp_np_apply; [apply lookup_fresh |].
    apply wp_bind.
    eapply wp_np_zeros_like; [apply lookup_app_l_Some, lookup_fresh |].
    apply wp_bind.
    eapply wp_mono; [apply frame_projection_loop with (h0 := h) | |].
    - do 3 apply prefix_app_r. done.
    - len.
    - intros ? h1 Hh1. apply wp_ret. exact Hh1.
    - intros e h1 Hh1. exact Hh1. }
  unfold wp, kept in Hwp.
  destruct (get_projection B f a b h) as [[p | e] h']; exact Hwp.
Qed.

(** ** The rows of [gram_schmidt] *)

Lemma gram_fold_S a b N grid m r0 :
  fold_left (gram_extend a b N grid) (seq 1 (S m)) [r0]
  = gram_extend a b N grid (fold_left (gram_extend a b N grid) (seq 1 m) [r0]) (S m).
Proof. by rewrite seq_S, fold_left_app. Qed.

Lemma lookup_gram_fold a b N grid r0 m :
  forall n, 1 <= n <= m ->
  fold_left (gram_extend a b N grid) (seq 1 m) [r0] !! n
  = Some (gram_row a b N grid
            (take n (fold_left (gram_extend a b N grid) (seq 1 m) [r0])) n).
Proof.
  induction m as [| m IH]; intros n Hn; [lia |].
  rewrite gram_fold_S.
  set (es := fold_left (gram_extend a b N grid) (seq 1 m) [r0]) in *.
  assert (Hlen : length es = S m).
  { unfold es. rewrite length_gram_fold, length_seq. simpl. lia. }
  unfold gram_extend. destruct (decide (n = S m)) as [-> | Hne].
  - rewrite take_app_length' by done.
    rewrite <- Hlen at 1. by rewrite lookup_fresh.
  - rewrite lookup_app_l by lia. rewrite take_app_le by lia.
    apply IH. lia.
Qed.

(** Row 0 is constant: every entry is
    [1 / sqrt(integrate(a, b, ones, N))]. *)
Lemma gram_schmidt_first_row a b N count :
  gram_schmidt a b N count !! 0
  = Some (replicate N (fdiv f1 (fsqrt (simpson_value a b (replicate N f1) N)))).
Proof.
  unfold gram_schmidt.
  assert (Hfold : forall idx es r0,
            es !! 0 = Some r0 ->
            fold_left (gram_extend a b N (linspace a b N)) idx es !! 0 = Some r0).
  { induction idx as [| n idx IH]; intros es r0 Hes; [done |].
    cbn [fold_left]. apply IH. unfold gram_extend. by apply lookup_app_l_Some. }
  rewrite (Hfold _ _ (first_row a b N (linspace a b N))) by done.
  unfold first_row. by rewrite fmap_replicate, length_linspace.
Qed.

(** ** Runs *)

Lemma wp_equation {A} (m : M A) h (a : A) h1 :
  wp m h (fun a' h' => a' = a /\ h' = h1) (fun _ _ => False) ->
  m h = (Ok a, h1).
Proof.
  unfold wp. destruct (m h) as [[a' | e] h']; [| done].
  by intros [-> ->].
Qed.

Lemma integration_run a b fx N h xs :
  N <> 0 -> h !! fx = Some xs ->
  integration_simpson_sampled a b fx N h
  = (Ok (simpson_value a b xs N), <[fx := simpson_weighted xs]> h).
Proof.
  intros HN Hfx. apply wp_equation. by eapply wp_integration.
Qed.

(** ** Main results, for every float arithmetic *)

(** C3, as the code has it.  [integration_simpson_sampled] works in place:
    for [N] other than zero, after the call the array it was given holds,
    at each index strictly between its two ends, 4 times (odd index) or 2
    times (even index) the value it held before, its two end elements are
    as before, and no other array of the store has changed. *)
Theorem integration_weights_in_place a b fx N h xs :
  N <> 0 -> h !! fx = Some xs ->
  exists ys,
    snd (integration_simpson_sampled a b fx N h) = <[fx := ys]> h
    /\ length ys = length xs
    /\ forall i x, xs !! i = Some x ->
         ys !! i = Some (if decide (0 < i < length xs - 1)
                         then fmul x (of_int (if Nat.odd i then 4 else 2))
                         else x).
Proof.
  intros HN Hfx. exists (simpson_weighted xs).
  rewrite (integration_run a b fx N h xs) by done.
  split; [done |]. split; [apply length_simpson_weighted |].
  intros i x Hi. rewrite lookup_simpson_weighted, Hi. unfold simpson_factor.
  by destruct (decide (0 < i < length xs - 1)).
Qed.

(** C5.  For [count >= 2] (and [N] other than zero, so that the
    integrations run), [legendre_polynomial_normalized] returns a matrix of
    [count] rows of length [N], and each row [n] with [1 <= n < count] is
    [wn / sqrt(integrate(a, b, wn^2, N))], where [wn] is the sampled
    monomial [x^n] minus the accumulated sum, over the rows [k < n] of that
    same matrix, of [integrate(a, b, x^n * e_k, N) * e_k]. *)
Theorem basis_rows_are_gram_schmidt_steps count N a b h :
  2 <= count -> N <> 0 ->
  exists es,
    returned_matrix (legendre_polynomial_normalized count N a b h) = Ok es
    /\ length es = count
    /\ Forall (fun row => length row = N) es
    /\ forall n, 1 <= n < count ->
         let xn := monomial (linspace a b N) n in
         let wn := zip_with fsub xn (project_onto a b N (take n es) xn) in
         es !! n
         = Some ((fun v => fdiv v (fsqrt (simpson_value a b (monomial wn 2) N)))
                   <$> wn).
Proof.
  intros Hcount HN. exists (gram_schmidt a b N count).
  split.
  { rewrite legendre_seeded, returned_matrix_seeded.
    - rewrite !decide_False by lia. done.
    - apply Forall_seq. lia. }
  split; [apply length_gram_schmidt; lia |].
  split; [apply Forall_length_gram_schmidt |].
  intros n Hn. unfold gram_schmidt. rewrite lookup_gram_fold by lia. done.
Qed.

(** C6.  For a matrix [B] of rows of length [N] (with [N] other than
    zero), [get_projection] returns the array of length [N] obtained from
    an accumulator of zeros by adding, for each row [ek] of [B] in turn,
    [integrate(a, b, fx * ek, N) * ek], with [fx] the values of [f] on the
    [N] points of [linspace(a, b, N)]. *)
Theorem projection_is_sum_of_components B f a b h es :
  shape1 B <> 0 ->
  read_matrix B h = Some es ->
  Forall (fun ek => length ek = shape1 B) es ->
  let N := shape1 B in
  let fx := f <$> linspace a b N in
  exists p,
    returned_array (get_projection B f a b h) = Ok p
    /\ length p = N
    /\ p = fold_left
             (fun acc ek =>
                zip_with fadd acc
                  (fmul (simpson_value a b (zip_with fmul fx ek) N) <$> ek))
             es (replicate N f0).
Proof.
  intros HN Hm Hlen N fx. exists (project_onto a b N es fx).
  assert (Hfx : length fx = N).
  { unfold fx. by rewrite length_fmap, length_linspace. }
  split; [| split].
  - apply wp_returned_array. eapply wp_get_projection; [done .. |].
    intros p h' _ Hp. exact Hp.
  - rewrite length_project_onto; [done |]. by rewrite Hfx.
  - unfold project_onto. by rewrite Hfx.
Qed.

(** C7, as the code has it.  [legendre_polynomial_normalized] has no check
    on the self-inner-products: for at least one row and [N] other than
    zero it raises nothing and returns the rows of [gram_schmidt], each
    row [n >= 1] being its orthogonalized monomial divided by the square
    root of its self-inner-product, whatever that number is. *)
Theorem basis_is_returned_without_check count N a b h :
  0 < count -> N <> 0 ->
  returned_matrix (legendre_polynomial_normalized count N a b h)
  = Ok (gram_schmidt a b N count).
Proof.
  intros Hcount HN. rewrite legendre_seeded, returned_matrix_seeded.
  - rewrite !decide_False by lia. done.
  - apply Forall_seq. lia.
Qed.

(** C8, as the code has it.  [integration_simpson_sampled] validates
    nothing: for every [N] other than zero, among them 1, 2 and the even
    numbers, it raises nothing and returns
    [((b - a) / N / 3) * np.sum] of the weighted samples. *)
Theorem integration_returns_for_any_count a b fx N h xs :
  N <> 0 -> h !! fx = Some xs ->
  fst (integration_simpson_sampled a b fx N h)
  = Ok (fmul (fdiv (fdiv (fsub b a) (of_int (Z.of_nat N))) (of_int 3))
             (np_sum (simpson_weighted xs))).
Proof.
  intros HN Hfx. by rewrite (integration_run a b fx N h xs).
Qed.

(** C9.  Whatever [B], [f], [a] and [b], and however the call ends, the
    rows of [B] hold after [get_projection] what they held before. *)
Theorem projection_leaves_basis_unchanged B f a b h es :
  read_matrix B h = Some es ->
  read_matrix B (snd (get_projection B f a b h)) = Some es.
Proof.
  unfold read_matrix. intros Hm%mapM_Some_1. apply mapM_Some_2.
  eapply Forall2_impl; [exact Hm |].
  intros l ek Hl. eapply prefix_lookup_Some; [exact Hl |].
  apply frame_get_projection.
Qed.

(** C10.  On every input, [legendre_polynomial_normalized] and the variant
    that does not seed rows 1 to [count - 1] give their caller the same
    matrix, or the same exception. *)
Theorem seeding_is_dead count N a b h :
  returned_matrix (legendre_polynomial_normalized count N a b h)
  = returned_matrix (legendre_polynomial_unseeded count N a b h).
Proof.
  rewrite legendre_seeded, legendre_unseeded_seeded.
  rewrite !returned_matrix_seeded; [done | |]; apply Forall_seq; lia.
Qed.

(** ** Edge cases of [integration_simpson_sampled] *)

(** With [N = 0] the call raises [ZeroDivisionError] at line 30, before
    any weighting: the store, the array [fx] included, is as it was. *)
Lemma integration_zero_count_raises a b fx h :
  integration_simpson_sampled a b fx 0 h = (Raise ZeroDivisionError, h).
Proof. reflexivity. Qed.

Lemma simpson_weighted_short xs : length xs <= 2 -> simpson_weighted xs = xs.
Proof.
  intros Hlen. apply list_eq. intros i.
  rewrite lookup_simpson_weighted. unfold simpson_factor.
  rewrite decide_False by lia. by destruct (xs !! i).
Qed.

(** X1.  An array of at most two elements has no element strictly between its
    ends: the call changes nothing in the store and returns
    [((b - a) / N / 3) * np.sum(fx)] of the samples as they are. *)
Theorem integration_of_short_array a b fx N h xs :
  N <> 0 -> h !! fx = Some xs -> length xs <= 2 ->
  integration_simpson_sampled a b fx N h
  = (Ok (fmul (fdiv (fdiv (fsub b a) (of_int (Z.of_nat N))) (of_int 3)) (np_sum xs)),
     h).
Proof.
  intros HN Hfx Hlen. rewrite (integration_run a b fx N h xs) by done.
  unfold simpson_value. rewrite simpson_weighted_short by done.
  by rewrite list_insert_id.
Qed.


(** X3.  The last element but one is multiplied by 4 when the number of
    samples is odd, and by 2 when it is even: with an even number of
    samples the weights end in 4, 2, 1. *)
Theorem weight_before_last_follows_parity xs x :
  3 <= length xs -> xs !! (length xs - 2) = Some x ->
  simpson_weighted xs !! (length xs - 2)
  = Some (fmul x (of_int (if Nat.even (length xs) then 2 else 4))).
Proof.
  intros Hlen Hx. rewrite lookup_simpson_weighted, Hx. unfold simpson_factor.
  rewrite decide_True by lia. simpl. do 3 f_equal.
  replace (length xs) with (S (S (length xs - 2))) at 2 by lia.
  rewrite Nat.even_succ_succ, <- Nat.negb_odd. by destruct (Nat.odd _).
Qed.

(** ** Edge cases of [get_projection] *)

(** X4.  With a matrix of no row the loop does not run: the projection is the
    array of zeros, whatever [N] is, zero included. *)
Theorem projection_on_empty_basis B f a b h :
  rows B = [] ->
  returned_array (get_projection B f a b h) = Ok (replicate (shape1 B) f0).
Proof.
  intros Hrows. apply wp_returned_array.
  unfold get_projection, np_linspace. rewrite Hrows.
  apply wp_bind, wp_alloc.
  apply wp_bind. eapply wp_np_apply; [apply lookup_fresh |].
  apply wp_bind.
  eapply wp_np_zeros_like; [apply lookup_app_l_Some, lookup_fresh |].
  apply wp_bind, wp_ret, wp_ret.
  rewrite lookup_fresh. by rewrite length_linspace.
Qed.


Lemma read_matrix_prefix B h h' es :
  h `prefix_of` h' -> read_matrix B h = Some es -> read_matrix B h' = Some es.
Proof.
  unfold read_matrix. intros Hpre Hm%mapM_Some_1. apply mapM_Some_2.
  eapply Forall2_impl; [exact Hm |].
  intros l ek Hl. eapply prefix_lookup_Some; [exact Hl | exact Hpre].
Qed.

Lemma returned_array_get_projection B f a b h es :
  shape1 B <> 0 -> read_matrix B h = Some es ->
  Forall (fun ek => length ek = shape1 B) es ->
  returned_array (get_projection B f a b h)
  = Ok (project_onto a b (shape1 B) es (f <$> linspace a b (shape1 B))).
Proof.
  intros HN Hm Hlen. apply wp_returned_array.
  eapply wp_get_projection; [done .. |]. intros p h' _ Hp. exact Hp.
Qed.

(** X6.  Projections on the same matrix do not interfere: after a projection
    of [f], the projection of [g] is what it would have been without
    it. *)
Theorem projections_do_not_interfere B f g a b h es :
  shape1 B <> 0 -> read_matrix B h = Some es ->
  Forall (fun ek => length ek = shape1 B) es ->
  returned_array (get_projection B g a b (snd (get_projection B f a b h)))
  = returned_array (get_projection B g a b h).
Proof.
  intros HN Hm Hlen.
  rewrite !(returned_array_get_projection B g a b _ es); try done.
  eapply read_matrix_prefix; [apply frame_get_projection | done].
Qed.

(** ** What [legendre_polynomial_normalized] leaves untouched *)

Lemma frame_np_power h0 x n h :
  h0 `prefix_of` h -> wp (np_power x n) h (fresh_in h0) (kept h0).
Proof. unfold np_power. frame_crush. Qed.

Lemma frame_np_zeros_like h0 x h :
  h0 `prefix_of` h -> wp (np_zeros_like x) h (fresh_in h0) (kept h0).
Proof. unfold np_zeros_like. frame_crush. Qed.

Lemma frame_np_ones_like h0 x h :
  h0 `prefix_of` h -> wp (np_ones_like x) h (fresh_in h0) (kept h0).
Proof. unfold np_ones_like. frame_crush. Qed.

Lemma frame_np_div_s h0 x c h :
  h0 `prefix_of` h -> wp (np_div_s x c) h (fresh_in h0) (kept h0).
Proof. unfold np_div_s. frame_crush. Qed.

Lemma frame_np_setrow h0 B n v h :
  h0 `prefix_of` h -> Forall (fun l => length h0 <= l) (rows B) ->
  wp (np_setrow B n v) h (kept h0) (kept h0).
Proof.
  intros Hpre Hrows. unfold np_setrow, np_row.
  destruct (rows B !! n) as [l |] eqn:Hl; [| frame_crush].
  assert (Hle : length h0 <= l) by (by eapply Forall_lookup_1 in Hrows).
  revert Hpre Hle. clear. frame_crush.
Qed.

Lemma frame_for_each h0 (body : nat -> M unit) idx :
  (forall n h, h0 `prefix_of` h -> wp (body n) h (kept h0) (kept h0)) ->
  forall h, h0 `prefix_of` h -> wp (for_each idx body) h (kept h0) (kept h0).
Proof.
  intros Hbody. induction idx as [| n idx IH]; intros h Hpre; [by apply wp_ret |].
  cbn [for_each]. apply wp_bind.
  eapply wp_mono; [by apply Hbody | | done].
  intros ? h1 Hh1. by apply IH.
Qed.

Lemma frame_seed_row h0 B xx n h :
  h0 `prefix_of` h -> Forall (fun l => length h0 <= l) (rows B) ->
  wp (seed_row B xx n) h (kept h0) (kept h0).
Proof.
  intros Hpre Hrows. unfold seed_row. apply wp_bind.
  eapply wp_mono; [by apply frame_np_power | | done].
  intros t h1 [Hh1 Ht]. by apply frame_np_setrow.
Qed.

Lemma frame_gram_schmidt_row h0 B xx a b N n h :
  h0 `prefix_of` h -> Forall (fun l => length h0 <= l) (rows B) ->
  wp (gram_schmidt_row B xx a b N n) h (kept h0) (kept h0).
Proof.
  intros Hpre Hrows. unfold gram_schmidt_row. apply wp_bind.
  eapply wp_mono; [by apply frame_np_power | | done].
  intros wn h1 [Hh1 Hwn]. apply wp_bind.
  eapply wp_mono; [by apply frame_np_zeros_like | | done].
  intros p_sum h2 [Hh2 Hp]. apply wp_bind.
  eapply wp_mono; [by apply frame_projection_loop | | done].
  intros ? h3 Hh3. apply wp_bind.
  eapply wp_mono; [by apply frame_np_iop | | done].
  intros ? h4 Hh4. apply wp_bind.
  eapply wp_mono; [by apply frame_np_power | | done].
  intros sq h5 [Hh5 Hsq]. apply wp_bind.
  eapply wp_mono; [by apply frame_integration | | done].
  intros norm h6 Hh6. apply wp_bind.
  eapply wp_mono; [by apply frame_np_div_s | | done].
  intros r h7 [Hh7 Hr]. by apply frame_np_setrow.
Qed.

Lemma frame_normalize_rows h0 B xx count N a b h :
  h0 `prefix_of` h -> Forall (fun l => length h0 <= l) (rows B) ->
  wp (normalize_rows B xx count N a b) h (kept h0) (kept h0).
Proof.
  intros Hpre Hrows. unfold normalize_rows. apply wp_bind.
  eapply wp_mono; [by apply frame_np_ones_like | | done].
  intros ones h1 [Hh1 Hones]. apply wp_bind.
  eapply wp_mono; [by apply frame_integration | | done].
  intros norm h2 Hh2. apply wp_bind.
  eapply wp_mono; [by apply frame_np_ones_like | | done].
  intros ones' h3 [Hh3 Hones']. apply wp_bind.
  eapply wp_mono; [by apply frame_np_div_s | | done].
  intros e1 h4 [Hh4 He1]. apply wp_bind.
  eapply wp_mono; [by apply frame_np_setrow | | done].
  intros ? h5 Hh5. apply wp_bind.
  eapply wp_mono; [apply frame_for_each with (h0 := h0) | | done].
  - intros n h' Hh'. by apply frame_gram_schmidt_row.
  - done.
  - intros ? h6 Hh6. by apply wp_ret.
Qed.

Lemma frame_seeded idx count N a b h :
  wp (seeded_then_normalized idx count N a b) h (kept h) (kept h).
Proof.
  unfold seeded_then_normalized, np_linspace, np_zeros2.
  apply wp_bind, wp_alloc.
  apply wp_bind. apply wp_bind, wp_alloc_rows. apply wp_ret.
  set (B := {| rows := seq (length (h ++ [linspace a b N])) count; shape1 := N |}).
  assert (Hrows : Forall (fun l => length h <= l) (rows B)).
  { apply Forall_seq. intros j Hj. rewrite length_app in Hj. lia. }
  apply wp_bind.
  eapply wp_mono; [apply frame_for_each with (h0 := h) | | done].
  - intros n h' Hh'. by apply frame_seed_row.
  - do 2 apply prefix_app_r. done.
  - intros ? h1 Hh1. by apply frame_normalize_rows.
Qed.

(** X7.  Whatever its arguments and however it ends,
    [legendre_polynomial_normalized] leaves every array that existed
    before the call as it was: it writes to arrays of its own only. *)
Theorem basis_builder_changes_no_array count N a b h l xs :
  h !! l = Some xs ->
  snd (legendre_polynomial_normalized count N a b h) !! l = Some xs.
Proof.
  intros Hl. eapply prefix_lookup_Some; [exact Hl |].
  pose proof (frame_seeded (seq 0 count) count N a b h) as Hwp.
  rewrite <- legendre_seeded in Hwp. unfold wp, kept in Hwp.
  destruct (legendre_polynomial_normalized count N a b h) as [[B | e] h'];
    exact Hwp.
Qed.

(** ** Edge cases and shape of [legendre_polynomial_normalized] *)

Lemma wp_raises {A} (m : M A) h e :
  wp m h (fun _ _ => False) (fun e' _ => e' = e) -> fst (m h) = Raise e.
Proof.
  unfold wp. destruct (m h) as [[x | e'] h']; [done |]. by intros ->.
Qed.


(** X9.  With no function asked for and [N] other than zero, line 85 writes
    row 0 of a matrix that has no row: [IndexError]. *)
Theorem basis_with_no_function_raises N a b h :
  N <> 0 ->
  fst (legendre_polynomial_normalized 0 N a b h) = Raise IndexError.
Proof.
  intros HN. apply wp_raises. rewrite legendre_seeded.
  by apply wp_seeded_index_error.
Qed.

(** X10.  Row 0 of the matrix is constant: each of its [N] entries is
    [1 / sqrt(integration_simpson_sampled(a, b, ones, N))]. *)
Theorem first_row_is_constant count N a b h :
  0 < count -> N <> 0 ->
  exists es,
    returned_matrix (legendre_polynomial_normalized count N a b h) = Ok es
    /\ es !! 0
       = Some (replicate N
                 (fdiv f1 (fsqrt (simpson_value a b (replicate N f1) N)))).
Proof.
  intros Hcount HN. exists (gram_schmidt a b N count). split.
  - rewrite legendre_seeded, returned_matrix_seeded.
    + rewrite !decide_False by lia. done.
    + apply Forall_seq. lia.
  - apply gram_schmidt_first_row.
Qed.

Lemma gram_fold_prefix a b N grid idx :
  forall es, es `prefix_of` fold_left (gram_extend a b N grid) idx es.
Proof.
  induction idx as [| n idx IH]; intros es; cbn [fold_left]; [done |].
  etransitivity; [| apply IH]. unfold gram_extend. by apply prefix_app_r.
Qed.

Lemma gram_schmidt_take a b N count count' :
  0 < count' <= count ->
  take count' (gram_schmidt a b N count) = gram_schmidt a b N count'.
Proof.
  intros Hc. unfold gram_schmidt.
  replace (count - 1) with ((count' - 1) + (count - count')) by lia.
  rewrite seq_app, fold_left_app.
  set (es' := fold_left _ (seq 1 (count' - 1)) _).
  assert (Hlen : length es' = count').
  { unfold es'. rewrite length_gram_fold, length_seq. simpl. lia. }
  destruct (gram_fold_prefix a b N (linspace a b N)
              (seq (1 + (count' - 1)) (count - count')) es') as [k ->].
  by apply take_app_length'.
Qed.

(** X11.  Asking for more functions does not change the first ones: the matrix
    for [count'] functions is made of the first [count'] rows of the
    matrix for [count >= count'] functions. *)
Theorem basis_rows_are_nested count count' N a b h h' :
  0 < count' <= count -> N <> 0 ->
  exists es es',
    returned_matrix (legendre_polynomial_normalized count N a b h) = Ok es
    /\ returned_matrix (legendre_polynomial_normalized count' N a b h') = Ok es'
    /\ es' = take count' es.
Proof.
  intros Hc HN.
  exists (gram_schmidt a b N count), (gram_schmidt a b N count').
  rewrite !legendre_seeded, !returned_matrix_seeded by (apply Forall_seq; lia).
  rewrite !decide_False by lia.
  split; [done |]. split; [done |]. by rewrite gram_schmidt_take.
Qed.

(** ** The functions together *)

Lemma wp_conj {A} (m : M A) h (Q1 Q2 : A -> heap -> Prop)
    (E1 E2 : exn -> heap -> Prop) :
  wp m h Q1 E1 -> wp m h Q2 E2 ->
  wp m h (fun x h' => Q1 x h' /\ Q2 x h') (fun e h' => E1 e h' /\ E2 e h').
Proof. unfold wp. destruct (m h) as [[x | e] h']; done. Qed.

Lemma wp_legendre count N a b h (Q : ndarray2 -> heap -> Prop) E :
  0 < count -> N <> 0 ->
  (forall B h',
     shape1 B = N -> h `prefix_of` h' ->
     read_matrix B h' = Some (gram_schmidt a b N count) -> Q B h') ->
  wp (legendre_polynomial_normalized count N a b) h Q E.
Proof.
  intros Hcount HN HQ. rewrite legendre_seeded.
  eapply wp_mono;
    [apply wp_conj;
       [apply (frame_seeded (seq 0 count) count N a b h)
       | apply wp_seeded_prefix with
           (Q := fun B h' => shape1 B = N
                   /\ read_matrix B h' = Some (gram_schmidt a b N count))
           (E := fun _ _ => False) ] | |].
  - apply Forall_seq. lia.
  - intros B lx lb h' Hrows Hshape Hlt Hlx Hlen.
    eapply wp_normalize_rows; [done .. |]. intros h'' Hm. done.
  - intros B h' [Hkept [Hshape Hm]]. by apply HQ.
  - intros e h' [_ []].
Qed.

(** X12.  The basis handed to [get_projection], as [main] does at lines 122 and
    132: for at least one function and [N] other than zero the result is
    the accumulated sum of [integrate(a, b, fx * ek, N) * ek] over the rows
    [ek] that Gram-Schmidt has produced, with [fx] the values of [f] on
    the grid of the basis. *)
Theorem projection_on_built_basis count N f a b h :
  0 < count -> N <> 0 ->
  returned_array
    (bind (legendre_polynomial_normalized count N a b)
          (fun BASE => get_projection BASE f a b) h)
  = Ok (project_onto a b N (gram_schmidt a b N count) (f <$> linspace a b N)).
Proof.
  intros Hcount HN. apply wp_returned_array. apply wp_bind.
  apply wp_legendre; [done .. |]. intros B h' Hshape _ Hm.
  eapply wp_get_projection.
  - by rewrite Hshape.
  - exact Hm.
  - rewrite Hshape. apply Forall_length_gram_schmidt.
  - intros p h'' _ Hp. by rewrite Hshape in Hp.
Qed.

(** X13.  [main] draws five curves on the grid of 100 points: [g] and [f] on
    the grid, and the projections of [f] and of [g] on one and the same
    basis, the Gram-Schmidt rows of 11 monomials; the projection of [f]
    has left that basis as it was for the projection of [g]. *)
Theorem main_draws_projections_on_one_basis minus_pi pi sin g h :
  let grid := linspace minus_pi pi 100 in
  let basis := gram_schmidt minus_pi pi 100 11 in
  exists xx gxx fxx projection_f projection_g h',
    main minus_pi pi sin g h = (Ok (xx, gxx, fxx, projection_f, projection_g), h')
    /\ h' !! xx = Some grid
    /\ h' !! gxx = Some (g <$> grid)
    /\ h' !! fxx = Some (sin <$> grid)
    /\ h' !! projection_f = Some (project_onto minus_pi pi 100 basis (sin <$> grid))
    /\ h' !! projection_g = Some (project_onto minus_pi pi 100 basis (g <$> grid)).
Proof.
  intros grid basis.
  assert (Hwp : wp (main minus_pi pi sin g) h
            (fun '(xx, gxx, fxx, pf, pg) h' =>
               h' !! xx = Some grid
               /\ h' !! gxx = Some (g <$> grid)
               /\ h' !! fxx = Some (sin <$> grid)
               /\ h' !! pf = Some (project_onto minus_pi pi 100 basis (sin <$> grid))
               /\ h' !! pg = Some (project_onto minus_pi pi 100 basis (g <$> grid)))
            (fun _ _ => False)).
  { unfold main, np_linspace.
    apply wp_bind, wp_alloc. apply wp_bind.
    apply wp_legendre; [lia | lia |]. intros B h1 Hshape Hh1 Hm.
    assert (Hlen : Forall (fun ek => length ek = shape1 B) basis).
    { rewrite Hshape. apply Forall_length_gram_schmidt. }
    assert (Hxx1 : h1 !! length h = Some grid).
    { eapply prefix_lookup_Some; [apply lookup_fresh | exact Hh1]. }
    apply wp_bind. eapply wp_get_projection; [lia | exact Hm | exact Hlen |].
    intros pf h2 Hh2 Hpf. rewrite Hshape in Hpf.
    apply wp_bind.
    eapply wp_get_projection;
      [lia | by eapply read_matrix_prefix | exact Hlen |].
    intros pg h3 Hh3 Hpg. rewrite Hshape in Hpg.
    assert (Hxx3 : h3 !! length h = Some grid).
    { eapply prefix_lookup_Some; [| exact Hh3].
      eapply prefix_lookup_Some; [exact Hxx1 | exact Hh2]. }
    apply wp_bind. eapply wp_np_apply; [exact Hxx3 |].
    apply wp_bind. eapply wp_np_apply; [by apply lookup_app_l_Some |].
    apply wp_ret.
    split; [by do 2 apply lookup_app_l_Some |].
    split; [apply lookup_app_l_Some, lookup_fresh |].
    split; [apply lookup_fresh |].
    split.
    - do 2 apply lookup_app_l_Some.
      eapply prefix_lookup_Some; [exact Hpf | exact Hh3].
    - by do 2 apply lookup_app_l_Some. }
  unfold wp in Hwp.
  destruct (main minus_pi pi sin g h) as [[[[[[xx gxx] fxx] pf] pg] | e] h'];
    [| done].
  by exists xx, gxx, fxx, pf, pg, h'.
Qed.

End Proofs.

(** * The program on binary64 floats *)

Example linspace_unit_5 :
  linspace zero one 5
  = [zero; S754_finite false 4503599627370496 (-54);
     S754_finite false 4503599627370496 (-53);
     S754_finite false 6755399441055744 (-53); one].
Proof. vm_compute. reflexivity. Qed.

Example weights_of_five_ones :
  simpson_weighted (replicate 5 one)
  = [one; B64.of_Z 4; B64.of_Z 2; B64.of_Z 4; one].
Proof. vm_compute. reflexivity. Qed.

(** Called with the number of sub-intervals, as its docstring has it, the
    integration of the constant 1 over [[0, 1]] from three samples is 1. *)
Example integration_with_subinterval_count :
  fst (integration_simpson_sampled zero one 0 2 [[one; one; one]]) = Ok one.
Proof. vm_compute. reflexivity. Qed.

(** C1.  On the three samples [1, 1, 1] of the constant 1 over [[0, 1]],
    with [N = 3], the code returns 2/3 (rounded): its step is
    [(b - a) / N].  The rule of the specification, whose step is
    [(b - a) / (N - 1)], gives 1, the integral. *)
Theorem integration_step_divides_by_N :
  fst (integration_simpson_sampled zero one 0 3 [[one; one; one]])
  = Ok (S754_finite false 6004799503160661 (-53))
  /\ spec_integrate zero one [one; one; one] 3 = one
  /\ B64.within (S754_finite false 6004799503160661 (-53))
       (2 # 3) (1 # 1000000000000000) = true.
Proof. vm_compute. repeat split. Qed.

(** C2.  On the squares of the five points of [linspace(0, 1, 5)], with
    [N = 5], the code returns 4/15 to within 1e-15, which is not within
    1e-9 of 1/3; the rule of the specification is. *)
Theorem integration_of_square_is_four_fifteenths :
  exists r,
    fst (integration_simpson_sampled zero one 0 5 [squares_on_unit_grid]) = Ok r
    /\ B64.within r (4 # 15) (1 # 1000000000000000) = true
    /\ B64.within r (1 # 3) (1 # 1000000000) = false
    /\ B64.within (spec_integrate zero one squares_on_unit_grid 5)
         (1 # 3) (1 # 1000000000) = true.
Proof.
  exists (S754_finite false 4803839602528529 (-54)). vm_compute. repeat split.
Qed.

(** C3, refuted: the call with the array [1, 1, 1] leaves [1, 4, 1] in
    it. *)
Lemma integration_changes_its_argument :
  ~ (forall (a b : B64.float) (fx : loc) (N : nat) (h : list (list B64.float)) xs,
       h !! fx = Some xs ->
       snd (integration_simpson_sampled a b fx N h) !! fx = Some xs).
Proof.
  intros Hall.
  specialize (Hall zero one 0 3 [[one; one; one]] [one; one; one] eq_refl).
  vm_compute in Hall. discriminate.
Qed.

Lemma integration_weights_in_place_witness :
  3 <> 0
  /\ [[one; one; one]] !! 0 = Some [one; one; one]
  /\ exists ys,
       snd (integration_simpson_sampled zero one 0 3 [[one; one; one]])
       = <[0 := ys]> [[one; one; one]]
       /\ length ys = length [one; one; one]
       /\ forall i x, [one; one; one] !! i = Some x ->
            ys !! i = Some (if decide (0 < i < length [one; one; one] - 1)
                            then fmul x (of_int (if Nat.odd i then 4 else 2))
                            else x).
Proof.
  split; [lia |]. split; [reflexivity |].
  apply (integration_weights_in_place (F := B64.float)); [lia | reflexivity].
Defined.

(** C4.  With one function, three points and the interval [[0, 1]], the
    only row of the matrix is the constant 1.2247... (the inverse square
    root of [(b - a) * (N - 1) / N = 2/3]), where the specification has
    the constant [1 / sqrt(b - a) = 1]. *)
Theorem first_row_is_scaled_by_point_count :
  returned_matrix (legendre_polynomial_normalized 1 3 zero one [])
  = Ok [replicate 3 (S754_finite false 5515760546423086 (-52))]
  /\ spec_first_row zero one 3 = replicate 3 one
  /\ B64.within (S754_finite false 5515760546423086 (-52))
       (12247 # 10000) (1 # 10000) = true.
Proof. vm_compute. repeat split. Qed.

Lemma basis_rows_are_gram_schmidt_steps_witness :
  2 <= 2 /\ 3 <> 0
  /\ exists es,
       returned_matrix (legendre_polynomial_normalized 2 3 zero one []) = Ok es
       /\ length es = 2
       /\ Forall (fun row => length row = 3) es
       /\ forall n, 1 <= n < 2 ->
            let xn := monomial (linspace zero one 3) n in
            let wn := zip_with fsub xn (project_onto zero one 3 (take n es) xn) in
            es !! n
            = Some ((fun v => fdiv v (fsqrt (simpson_value zero one (monomial wn 2) 3)))
                      <$> wn).
Proof.
  split; [lia |]. split; [lia |].
  apply (basis_rows_are_gram_schmidt_steps (F := B64.float)); lia.
Defined.

Lemma projection_is_sum_of_components_witness :
  shape1 ones_basis <> 0
  /\ read_matrix ones_basis ones_store = Some [[one; one; one]]
  /\ Forall (fun ek => length ek = shape1 ones_basis) [[one; one; one]]
  /\ exists p,
       returned_array (get_projection ones_basis id zero one ones_store) = Ok p
       /\ length p = 3
       /\ p = fold_left
                (fun acc ek =>
                   zip_with fadd acc
                     (fmul (simpson_value zero one
                              (zip_with fmul (id <$> linspace zero one 3) ek) 3)
                        <$> ek))
                [[one; one; one]] (replicate 3 f0).
Proof.
  assert (Hlen : Forall (fun ek : list B64.float => length ek = shape1 ones_basis)
                        [[one; one; one]]).
  { apply Forall_singleton. reflexivity. }
  split; [simpl; lia |]. split; [reflexivity |]. split; [exact Hlen |].
  apply (projection_is_sum_of_components (F := B64.float)
           ones_basis id zero one ones_store);
    [simpl; lia | reflexivity | exact Hlen].
Defined.

(** C7, refuted: with two functions and one point on [[0, 3]] the
    self-inner-product of row 1 is zero, nothing is raised, and the matrix
    comes back with NaN as its row 1. *)
Lemma zero_norm_gives_nan_row :
  simpson_value zero three
    (monomial (orthogonalized zero three 1 (linspace zero three 1)
                 [first_row zero three 1 (linspace zero three 1)] 1) 2) 1
  = S754_zero false
  /\ returned_matrix (legendre_polynomial_normalized 2 1 zero three [])
     = Ok [[one]; [S754_nan]].
Proof. vm_compute. split; reflexivity. Qed.

Lemma basis_is_returned_without_check_witness :
  0 < 2 /\ 1 <> 0
  /\ returned_matrix (legendre_polynomial_normalized 2 1 zero three [])
     = Ok (gram_schmidt zero three 1 2).
Proof.
  split; [lia |]. split; [lia |].
  apply (basis_is_returned_without_check (F := B64.float)); lia.
Defined.

(** C8, refuted: with [N = 2] and two samples the call returns 1/3
    (rounded) and raises nothing. *)
Lemma integration_accepts_two_samples :
  ~ (forall (a b : B64.float) (fx : loc) (N : nat) (h : list (list B64.float)) xs,
       h !! fx = Some xs -> N < 3 \/ Nat.even N = true ->
       exists e, fst (integration_simpson_sampled a b fx N h) = Raise e).
Proof.
  intros Hall.
  destruct (Hall zero one 0 2 [[one; one]] [one; one] eq_refl) as [e He].
  - left. lia.
  - vm_compute in He. discriminate.
Qed.

Lemma integration_returns_for_any_count_witness :
  2 <> 0
  /\ [[one; one]] !! 0 = Some [one; one]
  /\ fst (integration_simpson_sampled zero one 0 2 [[one; one]])
     = Ok (fmul (fdiv (fdiv (fsub one zero) (of_int (Z.of_nat 2))) (of_int 3))
                (np_sum (simpson_weighted [one; one]))).
Proof.
  split; [lia |]. split; [reflexivity |].
  apply (integration_returns_for_any_count (F := B64.float)); [lia | reflexivity].
Defined.

Lemma projection_leaves_basis_unchanged_witness :
  read_matrix ones_basis ones_store = Some [[one; one; one]]
  /\ read_matrix ones_basis
       (snd (get_projection ones_basis id zero one ones_store))
     = Some [[one; one; one]].
Proof.
  split; [reflexivity |].
  apply (projection_leaves_basis_unchanged (F := B64.float)). reflexivity.
Defined.

(** ** Instances of the further results *)

Lemma integration_of_short_array_witness :
  2 <> 0
  /\ [[one; one]] !! 0 = Some [one; one]
  /\ length [one; one] <= 2
  /\ integration_simpson_sampled zero one 0 2 [[one; one]]
     = (Ok (fmul (fdiv (fdiv (fsub one zero) (of_int (Z.of_nat 2))) (of_int 3))
                 (np_sum [one; one])),
        [[one; one]]).
Proof.
  split; [lia |]. split; [reflexivity |]. split; [simpl; lia |].
  apply (integration_of_short_array (F := B64.float));
    [lia | reflexivity | simpl; lia].
Defined.


Example integration_twice_on_ones :
  bind (integration_simpson_sampled zero one 0 3)
       (fun _ => integration_simpson_sampled zero one 0 3) ones_store
  = (Ok (B64.of_Z 2), [[one; B64.of_Z 16; one]]).
Proof. vm_compute. reflexivity. Qed.

Lemma weight_before_last_follows_parity_witness :
  3 <= length [one; one; one; one]
  /\ [one; one; one; one] !! (length [one; one; one; one] - 2) = Some one
  /\ simpson_weighted [one; one; one; one] !! (length [one; one; one; one] - 2)
     = Some (fmul one
               (of_int (if Nat.even (length [one; one; one; one]) then 2 else 4))).
Proof.
  split; [simpl; lia |]. split; [reflexivity |].
  apply (weight_before_last_follows_parity (F := B64.float));
    [simpl; lia | reflexivity].
Defined.

Lemma projection_on_empty_basis_witness :
  rows {| rows := []; shape1 := 3 |} = []
  /\ returned_array
       (get_projection {| rows := []; shape1 := 3 |} id zero one ones_store)
     = Ok (replicate 3 (f0 (F := B64.float))).
Proof.
  split; [reflexivity |].
  apply (projection_on_empty_basis (F := B64.float)
           {| rows := []; shape1 := 3 |}). reflexivity.
Defined.


Lemma projections_do_not_interfere_witness :
  shape1 ones_basis <> 0
  /\ read_matrix ones_basis ones_store = Some [[one; one; one]]
  /\ Forall (fun ek : list B64.float => length ek = shape1 ones_basis)
            [[one; one; one]]
  /\ returned_array
       (get_projection ones_basis (fun x => B64.mul x x) zero one
          (snd (get_projection ones_basis id zero one ones_store)))
     = returned_array
         (get_projection ones_basis (fun x => B64.mul x x) zero one ones_store).
Proof.
  assert (Hlen : Forall (fun ek : list B64.float => length ek = shape1 ones_basis)
                        [[one; one; one]]).
  { apply Forall_singleton. reflexivity. }
  split; [simpl; lia |]. split; [reflexivity |]. split; [exact Hlen |].
  apply (projections_do_not_interfere (F := B64.float)
           ones_basis id (fun x => B64.mul x x) zero one ones_store
           [[one; one; one]]);
    [simpl; lia | reflexivity | exact Hlen].
Defined.

Lemma basis_builder_changes_no_array_witness :
  ones_store !! 0 = Some [one; one; one]
  /\ snd (legendre_polynomial_normalized 2 3 zero one ones_store) !! 0
     = Some [one; one; one].
Proof.
  split; [reflexivity |].
  apply (basis_builder_changes_no_array (F := B64.float)). reflexivity.
Defined.

Lemma basis_with_no_function_raises_witness :
  3 <> 0
  /\ fst (legendre_polynomial_normalized 0 3 zero one []) = Raise IndexError.
Proof.
  split; [lia |].
  apply (basis_with_no_function_raises (F := B64.float)). lia.
Defined.

Lemma first_row_is_constant_witness :
  0 < 2 /\ 3 <> 0
  /\ exists es,
       returned_matrix (legendre_polynomial_normalized 2 3 zero one []) = Ok es
       /\ es !! 0
          = Some (replicate 3
                    (fdiv f1 (fsqrt (simpson_value zero one (replicate 3 f1) 3)))).
Proof.
  split; [lia |]. split; [lia |].
  apply (first_row_is_constant (F := B64.float)); lia.
Defined.

Lemma basis_rows_are_nested_witness :
  0 < 1 <= 2 /\ 3 <> 0
  /\ exists es es',
       returned_matrix (legendre_polynomial_normalized 2 3 zero one []) = Ok es
       /\ returned_matrix (legendre_polynomial_normalized 1 3 zero one []) = Ok es'
       /\ es' = take 1 es.
Proof.
  split; [lia |]. split; [lia |].
  apply (basis_rows_are_nested (F := B64.float)); lia.
Defined.

Lemma projection_on_built_basis_witness :
  0 < 2 /\ 3 <> 0
  /\ returned_array
       (bind (legendre_polynomial_normalized 2 3 zero one)
             (fun BASE => get_projection BASE id zero one) [])
     = Ok (project_onto zero one 3 (gram_schmidt zero one 3 2)
             (id <$> linspace zero one 3)).
Proof.
  split; [lia |]. split; [lia |].
  apply (projection_on_built_basis (F := B64.float)); lia.
Defined.
